(** * genbox: the airdrop distribution engine

    A shallow embedding of [distribution] and of the helpers it calls,
    together with the properties its specification states about it.

    Layout:
    - [sdk]: the fixed-point decimal [sdk.Dec] of the Cosmos SDK, as far as
      the engine uses it (18 fractional digits kept in one integer, products
      and quotients rounded half-to-even);
    - the data model ([voteMap], [distrib], [distriParams], [amtDetail],
      [airdropDetail], [airdrop], [Account]);
    - [convertBech32] and [distribution];
    - the balances of the bank genesis ([applyVoteOptions] and the loop of
      [writeBankGenesis]) and the maps the parsers build;
    - the properties. *)

From Stdlib Require Import ZArith QArith Lia Lqa Field.
From stdpp Require Import base option list strings gmap.

Local Open Scope Z_scope.

(** ** The decimal substrate

    [sdk.Dec] wraps a [big.Int] that holds the value multiplied by [10^18].
    The embedding keeps that integer.  The decimals are of arbitrary precision
    here: the library's guard on results longer than 315 bits is not part of
    the model. *)
Module sdk.

Definition Dec := Z.
Definition Int := Z.

Definition Precision : Z := 18.
Definition precisionReuse : Z := 10 ^ Precision.
Definition fivePrecision : Z := Z.quot precisionReuse 2.

Definition ZeroDec : Dec := 0.
Definition OneDec : Dec := precisionReuse.
Definition NewDec (i : Z) : Dec := i * precisionReuse.
(** [NewDecWithPrec i prec] is [i * 10^-prec]. *)
Definition NewDecWithPrec (i prec : Z) : Dec := i * 10 ^ (Precision - prec).

(** [chopPrecisionAndRound] on a non-negative argument: the truncated
    quotient by [10^18], moved up by one when the remainder is above one
    half, or equal to one half with an odd quotient. *)
Definition chopNonNegative (d : Z) : Z :=
  let quo := Z.quot d precisionReuse in
  let rem := Z.rem d precisionReuse in
  if rem =? 0 then quo
  else match rem ?= fivePrecision with
       | Lt => quo
       | Gt => quo + 1
       | Eq => if Z.even quo then quo else quo + 1
       end.

(** A negative argument is negated, chopped, and negated back. *)
Definition chopPrecisionAndRound (d : Z) : Z :=
  if d <? 0 then - chopNonNegative (- d) else chopNonNegative d.

Definition Add (d d2 : Dec) : Dec := d + d2.
Definition Sub (d d2 : Dec) : Dec := d - d2.
Definition Mul (d d2 : Dec) : Dec := chopPrecisionAndRound (d * d2).

(** [Quo] multiplies by the precision twice, divides with [big.Int.Quo]
    (truncation towards zero, a run-time panic on a zero divisor: [None])
    and chops. *)
Definition Quo (d d2 : Dec) : option Dec :=
  if d2 =? 0 then None
  else Some (chopPrecisionAndRound
               (Z.quot (d * precisionReuse * precisionReuse) d2)).

Definition RoundInt (d : Dec) : Int := chopPrecisionAndRound d.
Definition IsZero (i : Z) : bool := i =? 0.
Definition Equal (d d2 : Dec) : bool := d =? d2.


End sdk.

Import sdk.

(** ** Vote options and vote maps *)

(** [govtypes.VoteOption]; [OptionEmpty] is the vote that was not cast. *)
Inductive VoteOption :=
| OptionEmpty | OptionYes | OptionAbstain | OptionNo | OptionNoWithVeto.

#[global] Instance VoteOption_eq_dec : EqDecision VoteOption.
Proof. solve_decision. Defined.

Definition allVoteOptions : list VoteOption :=
  [OptionEmpty; OptionYes; OptionAbstain; OptionNo; OptionNoWithVeto].

Definition activeVoteOptions : list VoteOption :=
  [OptionYes; OptionNo; OptionNoWithVeto].

(** A [voteMap] is a Go map keyed by the vote option.  Every map the engine
    handles comes out of [newVoteMap], which sets all five keys, so the
    embedding is a total function on the enumeration. *)
Definition voteMap := VoteOption -> Dec.

Definition voteMap_set (m : voteMap) (v : VoteOption) (d : Dec) : voteMap :=
  fun o => if decide (o = v) then d else m o.

Definition newVoteMap : voteMap :=
  fold_left (fun m v => voteMap_set m v ZeroDec) allVoteOptions (fun _ => ZeroDec).

(** [func (m voteMap) add(v, d)]: [m[v] = m[v].Add(d)]. *)
Definition add (m : voteMap) (v : VoteOption) (d : Dec) : voteMap :=
  voteMap_set m v (Add (m v) d).

(** ** Records of the engine *)

Record distrib := mkDistrib {
  supply : Dec;
  votes : voteMap;
  unstaked : Dec;
}.

Record distriParams := mkDistriParams {
  yesVotesMultiplier : Dec;
  noVotesMultiplier : Dec;
  bonus : Dec;
  malus : Dec;
  supplyFactor : Dec;
  supplyMintFactor : Dec;
}.

Record amtDetail := mkAmtDetail {
  AtomAmt : Dec;
  Multiplier : Dec;
  BonusMalus : Dec;
  Factor : Dec;
  AtoneAmt : Dec;
}.

Record airdropDetail := mkAirdropDetail {
  YesDetail : amtDetail;
  NoDetail : amtDetail;
  NWVDetail : amtDetail;
  AbsDetail : amtDetail;
  DnvDetail : amtDetail;
  LiquidDetail : amtDetail;
  Total : Dec;
}.

(** The two minted amounts are assigned on the last lines of [distribution]
    only; [None] is the zero-valued [sdk.Dec] of a field never assigned. *)
Record airdrop := mkAirdrop {
  params : distriParams;
  addresses : gmap string Int;
  addressesDetail : gmap string airdropDetail;
  nonVotersMultiplier : Dec;
  atom : distrib;
  atone : distrib;
  icfSlash : Dec;
  communityPool : option Dec;
  reservedAddr : option Dec;
}.

(** [Account], with the fields the sources under study read. *)
Record WeightedVoteOption := mkWeightedVoteOption {
  Option_ : VoteOption;
  Weight : Dec;
}.

Record Delegation := mkDelegation {
  Amount : Dec;
  DelegationVote : list WeightedVoteOption;
}.

Record Account := mkAccount {
  Address : string;
  LiquidAmount : Dec;
  StakedAmount : Dec;
  Vote : list WeightedVoteOption;
  Delegations : list Delegation;
}.

(** ** Constants *)

Definition icfWallets : list string :=
  [ "cosmos1z8mzakma7vnaajysmtkwt4wgjqr2m84tzvyfkz";
    "cosmos1unc788q8md2jymsns24eyhua58palg5kc7cstv";
    "cosmos1sufkm72dw7ua9crpfhhp0dqpyuggtlhdse98e7";
    "cosmos1z6czaavlk6kjd48rpf58kqqw9ssad2uaxnazgl";
    "cosmos17u903qxqc6dzn3chvmc9zzp9fl4xja0pwggfj7" ]%string.

Definition defaultDistriParams : option distriParams :=
  match Quo OneDec (NewDec 9) with
  | Some ninth =>
      Some {| yesVotesMultiplier := OneDec;
              noVotesMultiplier := NewDec 4;
              bonus := NewDecWithPrec 103 2;
              malus := NewDecWithPrec 97 2;
              supplyFactor := NewDecWithPrec 1 1;
              supplyMintFactor := ninth |}
  | None => None
  end.

(** [slices.Contains]. *)
Fixpoint Contains (s : list string) (v : string) : bool :=
  match s with
  | [] => false
  | x :: s' => if String.eqb x v then true else Contains s' v
  end.

(** ** Results of a call

    A Go call of [distribution] either returns the pair of an airdrop and a
    nil error ([Done]), returns the pair of an airdrop and an error
    ([Fail]), or panics ([Crash]).  The same type describes one turn of a
    loop body: [Done] falls through to the next turn. *)
Definition error := string.

Inductive panic :=
| DivisionByZero
| WRONG (d : airdropDetail).

Inductive outcome :=
| Done (a : airdrop)
| Fail (a : airdrop) (err : error)
| Crash (p : panic).

(** [for _, acc := range accounts { body }], the body being able to return
    or to panic. *)
Fixpoint forAccounts (body : airdrop -> Account -> outcome)
    (accounts : list Account) (a : airdrop) : outcome :=
  match accounts with
  | [] => Done a
  | acc :: rest =>
      match body a acc with
      | Done a' => forAccounts body rest a'
      | o => o
      end
  end.

(** The test the second loop makes for an ICF wallet. *)
Definition slashed (acc : Account) : bool := Contains icfWallets (Address acc).

Definition nonSlashed (l : list Account) : list Account :=
  List.filter (fun b => negb (slashed b)) l.

Definition onlySlashed (l : list Account) : list Account :=
  List.filter slashed l.

(** ** The engine *)

Section Engine.

(** [Account.voteWeights] is declared outside the sources under study: the
    engine is parametric in it.  It yields a fully populated [voteMap]. *)
Variable voteWeights : Account -> voteMap.

(** The two bech32 routines of the SDK that [convertBech32] calls; each
    returns its value or an error. *)
Variable GetFromBech32 : string -> string -> list Byte.byte + error.
Variable Bech32ifyAddressBytes : string -> list Byte.byte -> string + error.

(** [convertBech32] derives [addr] from the [src] to the [dst] prefix. *)
Definition convertBech32 (addr src dst : string) : string + error :=
  match GetFromBech32 addr src with
  | inr err => inr ("GetFromBech32 '" +:+ addr +:+ "': " +:+ err)%string
  | inl sdkAddr =>
      match Bech32ifyAddressBytes dst sdkAddr with
      | inr err => inr ("Bech32ifyAddressBytes '" +:+ "" +:+ "': " +:+ err)%string
      | inl addr' => inl addr'
      end
  end.

(** The per-option amounts of an account: its weights times its stake. *)
Definition yesAtomAmt (acc : Account) : Dec :=
  Mul (voteWeights acc OptionYes) (StakedAmount acc).
Definition noAtomAmt (acc : Account) : Dec :=
  Mul (voteWeights acc OptionNo) (StakedAmount acc).
Definition noWithVetoAtomAmt (acc : Account) : Dec :=
  Mul (voteWeights acc OptionNoWithVeto) (StakedAmount acc).
Definition abstainAtomAmt (acc : Account) : Dec :=
  Mul (voteWeights acc OptionAbstain) (StakedAmount acc).
Definition noVoteAtomAmt (acc : Account) : Dec :=
  Mul (voteWeights acc OptionEmpty) (StakedAmount acc).

(** Body of the first loop: the $ATOM distribution grows by the account. *)
Definition addAtom (d : distrib) (acc : Account) : distrib :=
  let v := votes d in
  let v := add v OptionYes (yesAtomAmt acc) in
  let v := add v OptionNo (noAtomAmt acc) in
  let v := add v OptionNoWithVeto (noWithVetoAtomAmt acc) in
  let v := add v OptionAbstain (abstainAtomAmt acc) in
  let v := add v OptionEmpty (noVoteAtomAmt acc) in
  {| supply := Add (supply d) (Add (StakedAmount acc) (LiquidAmount acc));
     votes := v;
     unstaked := Add (unstaked d) (LiquidAmount acc) |}.

Definition zeroDistrib : distrib :=
  {| supply := ZeroDec; votes := newVoteMap; unstaked := ZeroDec |}.

Definition atomDistrib (accounts : list Account) : distrib :=
  fold_left addAtom accounts zeroDistrib.

(** The inputs of the non-voters multiplier and the multiplier itself. *)
Definition yesAtoneTotalAmt (d : distrib) (p : distriParams) : Dec :=
  Mul (votes d OptionYes) (yesVotesMultiplier p).
Definition noAtoneTotalAmt (d : distrib) (p : distriParams) : Dec :=
  Mul (Add (votes d OptionNo) (votes d OptionNoWithVeto)) (noVotesMultiplier p).
Definition noVotersAtomTotalAmt (d : distrib) : Dec :=
  Add (Add (votes d OptionAbstain) (votes d OptionEmpty)) (unstaked d).
Definition targetNonVotersPerc : Dec := NewDecWithPrec 33 2.

Definition solveNonVotersMultiplier (d : distrib) (p : distriParams) : option Dec :=
  Quo (Mul targetNonVotersPerc (Add (yesAtoneTotalAmt d p) (noAtoneTotalAmt d p)))
      (Mul (Sub OneDec targetNonVotersPerc) (noVotersAtomTotalAmt d)).

(** The amounts the second loop computes for one account, given the
    multiplier [m] held in [airdrop.nonVotersMultiplier]. *)
Definition yesAirdropAmt (p : distriParams) (acc : Account) : Dec :=
  Mul (Mul (yesAtomAmt acc) (yesVotesMultiplier p)) (supplyFactor p).
Definition noAirdropAmt (p : distriParams) (acc : Account) : Dec :=
  Mul (Mul (noAtomAmt acc) (noVotesMultiplier p)) (supplyFactor p).
Definition noWithVetoAirdropAmt (p : distriParams) (acc : Account) : Dec :=
  Mul (Mul (Mul (noWithVetoAtomAmt acc) (noVotesMultiplier p)) (bonus p)) (supplyFactor p).
Definition abstainAirdropAmt (p : distriParams) (m : Dec) (acc : Account) : Dec :=
  Mul (Mul (abstainAtomAmt acc) m) (supplyFactor p).
Definition noVoteAirdropAmt (p : distriParams) (m : Dec) (acc : Account) : Dec :=
  Mul (Mul (Mul (noVoteAtomAmt acc) m) (malus p)) (supplyFactor p).
Definition liquidMultiplier (p : distriParams) (m : Dec) : Dec :=
  Mul m (malus p).
Definition liquidAirdropAmt (p : distriParams) (m : Dec) (acc : Account) : Dec :=
  Mul (Mul (LiquidAmount acc) (liquidMultiplier p m)) (supplyFactor p).
Definition stakedAirdropAmt (p : distriParams) (m : Dec) (acc : Account) : Dec :=
  Add (Add (Add (Add (yesAirdropAmt p acc) (noAirdropAmt p acc))
                (noWithVetoAirdropAmt p acc))
           (abstainAirdropAmt p m acc))
      (noVoteAirdropAmt p m acc).
Definition airdropAmt (p : distriParams) (m : Dec) (acc : Account) : Dec :=
  Add (liquidAirdropAmt p m acc) (stakedAirdropAmt p m acc).

(** The $ATONE distribution grows by the awards of the account. *)
Definition addAtone (p : distriParams) (m : Dec) (d : distrib) (acc : Account) : distrib :=
  let v := votes d in
  let v := add v OptionYes (yesAirdropAmt p acc) in
  let v := add v OptionNo (noAirdropAmt p acc) in
  let v := add v OptionNoWithVeto (noWithVetoAirdropAmt p acc) in
  let v := add v OptionAbstain (abstainAirdropAmt p m acc) in
  let v := add v OptionEmpty (noVoteAirdropAmt p m acc) in
  {| supply := Add (supply d) (airdropAmt p m acc);
     votes := v;
     unstaked := Add (unstaked d) (liquidAirdropAmt p m acc) |}.

(** The audit record stored under the address of the account. *)
Definition detailOf (p : distriParams) (m : Dec) (acc : Account) : airdropDetail :=
  {| YesDetail := mkAmtDetail (yesAtomAmt acc) (yesVotesMultiplier p)
                    OneDec (supplyFactor p) (yesAirdropAmt p acc);
     NoDetail := mkAmtDetail (noAtomAmt acc) (noVotesMultiplier p)
                    OneDec (supplyFactor p) (noAirdropAmt p acc);
     NWVDetail := mkAmtDetail (noWithVetoAtomAmt acc) (noVotesMultiplier p)
                    (bonus p) (supplyFactor p) (noWithVetoAirdropAmt p acc);
     AbsDetail := mkAmtDetail (abstainAtomAmt acc) m
                    OneDec (supplyFactor p) (abstainAirdropAmt p m acc);
     DnvDetail := mkAmtDetail (noVoteAtomAmt acc) m
                    (malus p) (supplyFactor p) (noVoteAirdropAmt p m acc);
     LiquidDetail := mkAmtDetail (LiquidAmount acc) m
                    (malus p) (supplyFactor p) (liquidAirdropAmt p m acc);
     Total := airdropAmt p m acc |}.

(** The sum the self-check recomputes before comparing it with the total. *)
Definition checkAmt (p : distriParams) (m : Dec) (acc : Account) : Dec :=
  Add (Add (Add (Add (Add (yesAirdropAmt p acc) (noAirdropAmt p acc))
                     (noWithVetoAirdropAmt p acc))
                (abstainAirdropAmt p m acc))
           (noVoteAirdropAmt p m acc))
      (liquidAirdropAmt p m acc).

(** The key an account is recorded under: its address, or that address
    moved to [prefix] when one is given. *)
Definition outputAddr (prefix : string) (acc : Account) : string + error :=
  if String.eqb prefix "" then inl (Address acc)
  else convertBech32 (Address acc) "cosmos" prefix.

Definition set_icfSlash (a : airdrop) (d : Dec) : airdrop :=
  mkAirdrop (params a) (addresses a) (addressesDetail a) (nonVotersMultiplier a)
    (atom a) (atone a) d (communityPool a) (reservedAddr a).
Definition set_atone (a : airdrop) (d : distrib) : airdrop :=
  mkAirdrop (params a) (addresses a) (addressesDetail a) (nonVotersMultiplier a)
    (atom a) d (icfSlash a) (communityPool a) (reservedAddr a).
Definition record (a : airdrop) (addr : string) (amtInt : Int)
    (detail : airdropDetail) : airdrop :=
  mkAirdrop (params a) (<[addr := amtInt]> (addresses a))
    (<[addr := detail]> (addressesDetail a)) (nonVotersMultiplier a)
    (atom a) (atone a) (icfSlash a) (communityPool a) (reservedAddr a).
Definition set_minted (a : airdrop) (cp ra : Dec) : airdrop :=
  mkAirdrop (params a) (addresses a) (addressesDetail a) (nonVotersMultiplier a)
    (atom a) (atone a) (icfSlash a) (Some cp) (Some ra).

(** Body of the second loop. *)
Definition allocate (p : distriParams) (prefix : string)
    (a : airdrop) (acc : Account) : outcome :=
  if Contains icfWallets (Address acc) then
    Done (set_icfSlash a (Add (Add (icfSlash a) (LiquidAmount acc)) (StakedAmount acc)))
  else
    let m := nonVotersMultiplier a in
    let a := set_atone a (addAtone p m (atone a) acc) in
    let amtInt := RoundInt (airdropAmt p m acc) in
    if IsZero amtInt then Done a
    else
      match outputAddr prefix acc with
      | inr err => Fail a err
      | inl addr =>
          let a := record a addr amtInt (detailOf p m acc) in
          if Equal (checkAmt p m acc) (airdropAmt p m acc) then Done a
          else Crash (WRONG (detailOf p m acc))
      end.

(** The airdrop as it stands between the two loops. *)
Definition solvedAirdrop (p : distriParams) (d : distrib) (m : Dec) : airdrop :=
  {| params := p; addresses := ∅; addressesDetail := ∅;
     nonVotersMultiplier := m; atom := d; atone := zeroDistrib;
     icfSlash := ZeroDec; communityPool := None; reservedAddr := None |}.

(** The closing lines: the minted part and its two halves. *)
Definition mint (p : distriParams) (a : airdrop) : outcome :=
  let minted := Mul (supply (atone a)) (supplyMintFactor p) in
  match Quo minted (NewDec 2), Quo minted (NewDec 2) with
  | Some cp, Some ra => Done (set_minted a cp ra)
  | _, _ => Crash DivisionByZero
  end.

Definition distribution (accounts : list Account) (p : distriParams)
    (prefix : string) : outcome :=
  let d := atomDistrib accounts in
  match solveNonVotersMultiplier d p with
  | None => Crash DivisionByZero
  | Some m =>
      match forAccounts (allocate p prefix) accounts (solvedAirdrop p d m) with
      | Done a => mint p a
      | o => o
      end
  end.

(** The amounts of an account by vote option, before and after the
    multipliers. *)
Definition atomAmtOf (acc : Account) (o : VoteOption) : Dec :=
  Mul (voteWeights acc o) (StakedAmount acc).
Definition awardOf (p : distriParams) (m : Dec) (acc : Account)
    (o : VoteOption) : Dec :=
  match o with
  | OptionYes => yesAirdropAmt p acc
  | OptionNo => noAirdropAmt p acc
  | OptionNoWithVeto => noWithVetoAirdropAmt p acc
  | OptionAbstain => abstainAirdropAmt p m acc
  | OptionEmpty => noVoteAirdropAmt p m acc
  end.

(** [recorded p m prefix acc k]: the second loop writes the entry of
    [acc] under the key [k]. *)
Definition recorded (p : distriParams) (m : Dec) (prefix : string)
    (acc : Account) (k : string) : Prop :=
  slashed acc = false /\ RoundInt (airdropAmt p m acc) <> 0 /\
  outputAddr prefix acc = inl k.

(** What the five products weight * stake of an account exceed its stake
    by. *)
Definition excessOf (acc : Account) : Z :=
  atomAmtOf acc OptionYes + atomAmtOf acc OptionNo
  + atomAmtOf acc OptionNoWithVeto + atomAmtOf acc OptionAbstain
  + atomAmtOf acc OptionEmpty - StakedAmount acc.

(** [distrib.votePercentages]: every entry divided by the supply. *)
Definition votePercentages (d : distrib) : option voteMap :=
  match Quo (votes d OptionEmpty) (supply d), Quo (votes d OptionYes) (supply d),
        Quo (votes d OptionAbstain) (supply d), Quo (votes d OptionNo) (supply d),
        Quo (votes d OptionNoWithVeto) (supply d) with
  | Some e, Some y, Some ab, Some n, Some nwv =>
      Some (fun o => match o with
                     | OptionEmpty => e | OptionYes => y | OptionAbstain => ab
                     | OptionNo => n | OptionNoWithVeto => nwv
                     end)
  | _, _, _, _, _ => None
  end.

End Engine.

(** ** Vocabulary of the properties *)

(** The sum of [f] over a list. *)
Definition sumOf {A : Type} (f : A -> Z) (l : list A) : Z :=
  foldr (fun a s => f a + s) 0 l.

(** The airdrop a call hands back, with or without an error; a panic hands
    back nothing. *)
Definition airdropOf (o : outcome) : option airdrop :=
  match o with
  | Done a => Some a
  | Fail a _ => Some a
  | Crash _ => None
  end.

Definition sumVotes (m : voteMap) : Dec :=
  Add (Add (Add (Add (m OptionYes) (m OptionNo)) (m OptionNoWithVeto))
           (m OptionAbstain))
      (m OptionEmpty).

(** What the votes and the unstaked amount of a distribution exceed its
    supply by. *)
Definition excess (d : distrib) : Z :=
  sumVotes (votes d) + unstaked d - supply d.

(** The six result amounts of an audit record, added up. *)
Definition detailSum (d : airdropDetail) : Dec :=
  Add (Add (Add (Add (Add (AtoneAmt (YesDetail d)) (AtoneAmt (NoDetail d)))
                     (AtoneAmt (NWVDetail d)))
                (AtoneAmt (AbsDetail d)))
           (AtoneAmt (DnvDetail d)))
      (AtoneAmt (LiquidDetail d)).


(** ** Stand-ins for running the engine on concrete inputs *)

(** Modelled from the spec: [Account.voteWeights] is declared outside the
    sources under study.  The weights are those of the account's own vote;
    an account without a vote has the whole weight on [OptionEmpty]. *)
Definition ownVoteWeights (acc : Account) : voteMap :=
  match Vote acc with
  | [] => voteMap_set newVoteMap OptionEmpty OneDec
  | vs => fold_left (fun m wv => voteMap_set m (Option_ wv) (Weight wv)) vs newVoteMap
  end.

(** A stand-in for the two bech32 routines of the SDK: the human-readable
    part is checked and replaced, the data part is kept as it is (real bech32
    re-computes a checksum as well). *)
Definition plainGetFromBech32 (addr prefix : string) : list Byte.byte + error :=
  if String.prefix (prefix +:+ "1") addr
  then inl (String.list_byte_of_string
              (String.substring (String.length prefix + 1)
                 (String.length addr - (String.length prefix + 1)) addr))
  else inr "invalid Bech32 prefix"%string.

Definition plainBech32ifyAddressBytes (prefix : string) (bs : list Byte.byte)
    : string + error :=
  if String.eqb prefix "" then inr "prefix cannot be empty"%string
  else inl (prefix +:+ "1" +:+ String.string_of_list_byte bs)%string.

Definition run := distribution ownVoteWeights plainGetFromBech32 plainBech32ifyAddressBytes.


(** ** Sample inputs *)

Definition sampleParams : distriParams :=
  default (mkDistriParams 0 0 0 0 0 0) defaultDistriParams.

(** Staked 100, voted Yes. *)
Definition yesVoter : Account :=
  mkAccount "cosmos1aaa" 0 (NewDec 100) [mkWeightedVoteOption OptionYes OneDec] [].

(** Staked 100, did not vote. *)
Definition nonVoter : Account :=
  mkAccount "cosmos1bbb" 0 (NewDec 100) [] [].

(** Staked 100, did not vote, with an address that is no bech32 string. *)
Definition badAddress : Account :=
  mkAccount "foo" 0 (NewDec 100) [] [].

(** Staked 1, voted Yes: an award of 0.1, which rounds to zero. *)
Definition dustVoter : Account :=
  mkAccount "cosmos1ddd" 0 (NewDec 1) [mkWeightedVoteOption OptionYes OneDec] [].

(** An ICF wallet with 50 staked and 50 liquid. *)
Definition icfAccount : Account :=
  mkAccount "cosmos1z8mzakma7vnaajysmtkwt4wgjqr2m84tzvyfkz" (NewDec 50) (NewDec 50) [] [].

(** Staked 0.5 and 1 liquid, the vote split in thirds between Yes, No and
    NoWithVeto (the weights add up to one). *)
Definition thirdsVoter : Account :=
  mkAccount "cosmos1ccc" OneDec (NewDecWithPrec 5 1)
    [mkWeightedVoteOption OptionYes 333333333333333333;
     mkWeightedVoteOption OptionNo 333333333333333333;
     mkWeightedVoteOption OptionNoWithVeto 333333333333333334] [].

(** The airdrop a run hands back, for the runs that hand one back. *)
Definition resultOf (o : outcome) : airdrop :=
  match o with
  | Done a => a
  | Fail a _ => a
  | Crash _ => solvedAirdrop sampleParams zeroDistrib ZeroDec
  end.

(** ** The bank genesis ([genesis.go]) *)

(** [applyVoteOptions]: the amount times each weight of the vote, added up.
    The switch on the option has empty cases only, so the option does not
    enter the result. *)
Definition applyVoteOptions (vote : list WeightedVoteOption) (amount : Dec) : Dec :=
  fold_left (fun balance option => Add balance (Mul amount (Weight option)))
    vote ZeroDec.

(** [sdk.Coin] and [banktypes.Balance]. *)
Record Coin := mkCoin {
  Denom : string;
  CoinAmount : Int;
}.

Record Balance := mkBalance {
  BalanceAddress : string;
  Coins : list Coin;
}.

(** [Dec.TruncateInt64]: the integer part, a panic outside of int64. *)
Definition TruncateInt64 (d : Dec) : option Z :=
  let chopped := Z.quot d precisionReuse in
  if (- 2 ^ 63 <=? chopped) && (chopped <? 2 ^ 63) then Some chopped else None.

(** [sdk.NewInt64Coin] panics on a negative amount. *)
Definition NewInt64Coin (denom : string) (amount : Z) : option Coin :=
  if amount <? 0 then None else Some (mkCoin denom amount).

(** [sdk.NewCoins] of one coin: a coin of amount zero is dropped. *)
Definition NewCoins1 (c : Coin) : list Coin :=
  if CoinAmount c =? 0 then [] else [c].

(** The balance [writeBankGenesis] computes for an account: from its own
    vote if it has one, from the votes its delegations inherit otherwise. *)
Definition accountBalance (a : Account) : Dec :=
  match Vote a with
  | _ :: _ => applyVoteOptions (Vote a) (StakedAmount a)
  | [] =>
      fold_left (fun balance deleg =>
          Add balance (applyVoteOptions (DelegationVote deleg) (Amount deleg)))
        (Delegations a) ZeroDec
  end.

(** What the loop of [writeBankGenesis] ends in: the balances it goes on to
    marshal and write, the error it returns, or a panic. *)
Inductive genesisOutcome :=
| Balances (balances : list Balance)
| GenesisError (err : error)
| GenesisPanic.

Section Genesis.

Variable GetFromBech32 : string -> string -> list Byte.byte + error.
Variable Bech32ifyAddressBytes : string -> list Byte.byte -> string + error.

(** The loop of [writeBankGenesis] over the accounts, [balances] being the
    slice appended to. *)
Fixpoint bankBalances (accounts : list Account) (balances : list Balance)
    : genesisOutcome :=
  match accounts with
  | [] => Balances balances
  | a :: rest =>
      let balance := accountBalance a in
      match convertBech32 GetFromBech32 Bech32ifyAddressBytes
              (Address a) "cosmos" "govgen" with
      | inr err => GenesisError err
      | inl govgenAddr =>
          match TruncateInt64 balance with
          | None => GenesisPanic
          | Some amount =>
              match NewInt64Coin "ugovgen" amount with
              | None => GenesisPanic
              | Some coin =>
                  bankBalances rest
                    (balances ++ [mkBalance govgenAddr (NewCoins1 coin)])
              end
          end
      end
  end.

(** What the loop writes for an account: the address moved to [govgen] and
    the integer part of the balance, as one coin or, when zero, as none. *)
Definition writtenFor (a : Account) (b : Balance) : Prop :=
  convertBech32 GetFromBech32 Bech32ifyAddressBytes (Address a) "cosmos" "govgen"
    = inl (BalanceAddress b) /\
  exists amount,
    TruncateInt64 (accountBalance a) = Some amount /\
    amount = Z.quot (accountBalance a) precisionReuse /\
    0 <= amount < 2 ^ 63 /\
    Coins b = if amount =? 0 then [] else [mkCoin "ugovgen" amount].

End Genesis.

(** ** The maps built while parsing ([parsing.go])

    Each function below is the loop of the named parser over the records it
    has decoded from its file. *)

(** [stakingtypes.Delegation] and [govtypes.Vote]. *)
Record StakingDelegation := mkStakingDelegation {
  DelegatorAddress : string;
  ValidatorAddress : string;
  Shares : Dec;
}.

Record GovVote := mkGovVote {
  Voter : string;
  Options : list WeightedVoteOption;
}.

(** [parseDelegationsByAddr]: the delegations grouped by delegator. *)
Definition delegsByAddr (delegs : list StakingDelegation)
    : gmap string (list StakingDelegation) :=
  fold_left (fun m d =>
      <[DelegatorAddress d := default [] (m !! DelegatorAddress d) ++ [d]]> m)
    delegs ∅.

(** [parseVotesByAddr]: the options of each voter. *)
Definition votesByAddr (votes : list GovVote)
    : gmap string (list WeightedVoteOption) :=
  fold_left (fun m v => <[Voter v := Options v]> m) votes ∅.

(** [parseBalancesByAddr]: for each address the first coin of the denom. *)
Definition balancesByAddr (balances : list Balance) (denom : string)
    : gmap string Coin :=
  fold_left (fun m b =>
      match List.find (fun c => String.eqb (Denom c) denom) (Coins b) with
      | Some c => <[BalanceAddress b := c]> m
      | None => m
      end)
    balances ∅.

(** Sample inputs for the bank genesis. *)
Definition splitVoter : Account :=
  mkAccount "cosmos1eee" 0 (NewDecWithPrec 5 1)
    [mkWeightedVoteOption OptionYes 333333333333333333;
     mkWeightedVoteOption OptionNo 333333333333333333;
     mkWeightedVoteOption OptionAbstain 333333333333333334] [].

Definition delegator : Account :=
  mkAccount "cosmos1fff" 0 (NewDec 7) []
    [mkDelegation (NewDec 3) [mkWeightedVoteOption OptionNo OneDec];
     mkDelegation (NewDec 4) []].

(** A conserved distribution in thirds: 1 on Yes, 1 on No, 1 unstaked. *)
Definition thirdsDistrib : distrib :=
  {| supply := NewDec 3;
     votes := voteMap_set (voteMap_set newVoteMap OptionYes (NewDec 1))
                OptionNo (NewDec 1);
     unstaked := NewDec 1 |}.

(** The loop of [writeBankGenesis] with the stand-ins for bech32. *)
Definition plainBankBalances :=
  bankBalances plainGetFromBech32 plainBech32ifyAddressBytes.
(** ** Facts on the decimal substrate *)

Section DecFacts.

Lemma precisionReuse_val : precisionReuse = 1000000000000000000.
Proof. reflexivity. Qed.

Lemma fivePrecision_val : fivePrecision = 500000000000000000.
Proof. reflexivity. Qed.

(** Chopping a non-negative integer moves it by at most one half. *)
Lemma chopNonNegative_near (d : Z) :
  0 <= d ->
  0 <= chopNonNegative d /\
  2 * Z.abs (d - precisionReuse * chopNonNegative d) <= precisionReuse.
Proof.
  intros Hd. unfold chopNonNegative.
  pose proof (Z.quot_rem' d precisionReuse) as Hqr.
  assert (0 <= Z.rem d precisionReuse < precisionReuse) as Hr
    by (apply Z.rem_bound_pos; [lia | reflexivity]).
  assert (0 <= Z.quot d precisionReuse) as Hq
    by (apply Z.quot_pos; [lia | reflexivity]).
  rewrite fivePrecision_val.
  set (q := Z.quot d precisionReuse) in *.
  set (r := Z.rem d precisionReuse) in *.
  rewrite precisionReuse_val in *.
  destruct (Z.eqb_spec r 0); [lia |].
  destruct (Z.compare_spec r 500000000000000000);
    [destruct (Z.even q) | |]; lia.
Qed.

Lemma chopPrecisionAndRound_near (d : Z) :
  2 * Z.abs (d - precisionReuse * chopPrecisionAndRound d) <= precisionReuse.
Proof.
  unfold chopPrecisionAndRound. destruct (Z.ltb_spec d 0).
  - destruct (chopNonNegative_near (- d)) as [_ H']; lia.
  - destruct (chopNonNegative_near d) as [_ H']; lia.
Qed.

(** Chopping keeps the sign. *)
Lemma chopPrecisionAndRound_nonneg (d : Z) :
  0 <= d -> 0 <= chopPrecisionAndRound d.
Proof.
  intros Hd. unfold chopPrecisionAndRound.
  destruct (Z.ltb_spec d 0); [lia |].
  by destruct (chopNonNegative_near d).
Qed.

(** A multiple of the precision is chopped without rounding. *)
Lemma chopPrecisionAndRound_exact (k : Z) :
  chopPrecisionAndRound (k * precisionReuse) = k.
Proof.
  pose proof (chopPrecisionAndRound_near (k * precisionReuse)) as H.
  rewrite precisionReuse_val in *. lia.
Qed.

(** A product is within half a unit of the last place of the exact one. *)
Lemma Mul_near (d d2 : Dec) :
  2 * Z.abs (d * d2 - precisionReuse * Mul d d2) <= precisionReuse.
Proof. apply chopPrecisionAndRound_near. Qed.

Lemma Mul_whole (d : Dec) (k : Z) : Mul d (NewDec k) = d * k.
Proof.
  unfold Mul, NewDec.
  replace (d * (k * precisionReuse)) with (d * k * precisionReuse) by ring.
  apply chopPrecisionAndRound_exact.
Qed.


Lemma Quo_Some (d d2 : Dec) : d2 <> 0 -> is_Some (Quo d d2).
Proof. intros H. unfold Quo. destruct (Z.eqb_spec d2 0); [done | eauto]. Qed.

Lemma Quo_zero (d : Dec) : Quo d 0 = None.
Proof. reflexivity. Qed.

End DecFacts.

(** ** Facts on the engine *)

Section EngineFacts.

Variable voteWeights : Account -> voteMap.
Variable GetFromBech32 : string -> string -> list Byte.byte + error.
Variable Bech32ifyAddressBytes : string -> list Byte.byte -> string + error.

(** The proofs never look into the list of wallets. *)
Opaque icfWallets.

Local Abbreviation atomDistrib := (atomDistrib voteWeights).
Local Abbreviation addAtom := (addAtom voteWeights).
Local Abbreviation addAtone := (addAtone voteWeights).
Local Abbreviation atomAmtOf := (atomAmtOf voteWeights).
Local Abbreviation awardOf := (awardOf voteWeights).
Local Abbreviation airdropAmt := (airdropAmt voteWeights).
Local Abbreviation stakedAirdropAmt := (stakedAirdropAmt voteWeights).
Local Abbreviation checkAmt := (checkAmt voteWeights).
Local Abbreviation detailOf := (detailOf voteWeights).
Local Abbreviation outputAddr := (outputAddr GetFromBech32 Bech32ifyAddressBytes).
Local Abbreviation allocate :=
  (allocate voteWeights GetFromBech32 Bech32ifyAddressBytes).
Local Abbreviation distribution :=
  (distribution voteWeights GetFromBech32 Bech32ifyAddressBytes).

(** Unfolds the amounts of an account down to the decimal operations. *)
Ltac unfold_amounts :=
  unfold airdropAmt, stakedAirdropAmt,
    checkAmt, awardOf, atomAmtOf,
    liquidAirdropAmt, liquidMultiplier,
    yesAirdropAmt, noAirdropAmt, noWithVetoAirdropAmt, abstainAirdropAmt,
    noVoteAirdropAmt, yesAtomAmt, noAtomAmt, noWithVetoAtomAmt,
    abstainAtomAmt, noVoteAtomAmt, Add in *.

(** *** Vote maps *)

Lemma newVoteMap_zero (o : VoteOption) : newVoteMap o = 0.
Proof. by destruct o. Qed.

Lemma add_lookup (m : voteMap) (v o : VoteOption) (d : Dec) :
  add m v d o = if decide (o = v) then m o + d else m o.
Proof. unfold add, voteMap_set, Add. by destruct (decide (o = v)) as [->|]. Qed.

(** *** The first loop *)

Lemma addAtom_votes (d : distrib) (acc : Account) (o : VoteOption) :
  votes (addAtom d acc) o = votes d o + atomAmtOf acc o.
Proof.
  unfold addAtom; cbn [votes]. rewrite !add_lookup.
  unfold atomAmtOf, yesAtomAmt, noAtomAmt, noWithVetoAtomAmt,
    abstainAtomAmt, noVoteAtomAmt.
  destruct o; repeat case_decide; try done; lia.
Qed.

Lemma fold_addAtom (l : list Account) (d : distrib) :
  supply (fold_left addAtom l d)
    = supply d + sumOf (fun a => StakedAmount a + LiquidAmount a) l /\
  unstaked (fold_left addAtom l d) = unstaked d + sumOf LiquidAmount l /\
  forall o, votes (fold_left addAtom l d) o
            = votes d o + sumOf (fun a => atomAmtOf a o) l.
Proof.
  revert d. induction l as [| acc l IH]; intros d; cbn [fold_left sumOf foldr].
  - repeat split; intros; lia.
  - destruct (IH (addAtom d acc)) as (Hs & Hu & Hv).
    rewrite Hs, Hu. unfold sumOf in *. cbn. unfold Add.
    repeat split; [lia | lia |].
    intros o. rewrite Hv, addAtom_votes. lia.
Qed.

Lemma atomDistrib_sums (l : list Account) :
  supply (atomDistrib l) = sumOf (fun a => StakedAmount a + LiquidAmount a) l /\
  unstaked (atomDistrib l) = sumOf LiquidAmount l /\
  forall o, votes (atomDistrib l) o = sumOf (fun a => atomAmtOf a o) l.
Proof.
  destruct (fold_addAtom l zeroDistrib) as (Hs & Hu & Hv).
  unfold atomDistrib. rewrite Hs, Hu. repeat split; try done.
  intros o. rewrite Hv. cbn. by rewrite newVoteMap_zero.
Qed.

Lemma sumOf_cons {A : Type} (f : A -> Z) (a : A) (l : list A) :
  sumOf f (a :: l) = f a + sumOf f l.
Proof. reflexivity. Qed.

Lemma sumOf_app {A : Type} (f : A -> Z) (l1 l2 : list A) :
  sumOf f (l1 ++ l2) = sumOf f l1 + sumOf f l2.
Proof. induction l1 as [| a l1 IH]; cbn; [done | unfold sumOf in *; lia]. Qed.

(** *** Loops in general *)


(** A property kept by every turn that hands an airdrop back holds of the
    airdrop the loop hands back. *)
Lemma forAccounts_inv (I : airdrop -> Prop) body (l : list Account) :
  (forall a acc a', I a -> acc ∈ l -> airdropOf (body a acc) = Some a' -> I a') ->
  forall a a', I a -> airdropOf (forAccounts body l a) = Some a' -> I a'.
Proof.
  induction l as [| acc l IH]; intros Hstep a a' Ha; cbn.
  - intros [= <-]. exact Ha.
  - destruct (body a acc) as [a1 | a1 e | pn] eqn:Hb.
    + apply IH.
      * intros ? ? ? ? ?. apply Hstep; [done | by right].
      * apply (Hstep a acc); [done | by left | by rewrite Hb].
    + cbn. intros [= <-].
      apply (Hstep a acc); [done | by left | by rewrite Hb].
    + done.
Qed.

(** *** The second loop *)

Lemma checkAmt_eq p m acc : checkAmt p m acc = airdropAmt p m acc.
Proof.
  unfold checkAmt, airdropAmt, stakedAirdropAmt, Add. lia.
Qed.

(** The body, its self-check resolved. *)
Lemma allocate_cases p prefix a acc :
  allocate p prefix a acc =
    if slashed acc then
      Done (set_icfSlash a (icfSlash a + LiquidAmount acc + StakedAmount acc))
    else
      let m := nonVotersMultiplier a in
      let a1 := set_atone a (addAtone p m (atone a) acc) in
      if RoundInt (airdropAmt p m acc) =? 0 then Done a1
      else match outputAddr prefix acc with
           | inr err => Fail a1 err
           | inl addr =>
               Done (record a1 addr (RoundInt (airdropAmt p m acc))
                       (detailOf p m acc))
           end.
Proof.
  unfold allocate, slashed. destruct (Contains icfWallets (Address acc)); [done |].
  cbn zeta. unfold IsZero. cbn [nonVotersMultiplier set_atone].
  destruct (RoundInt _ =? 0); [done |].
  destruct (outputAddr prefix acc); [| done].
  unfold Equal. by rewrite checkAmt_eq, Z.eqb_refl.
Qed.



(** What a turn leaves alone. *)
Lemma allocate_fixed p prefix a acc a' :
  airdropOf (allocate p prefix a acc) = Some a' ->
  nonVotersMultiplier a' = nonVotersMultiplier a /\ params a' = params a /\
  atom a' = atom a /\ communityPool a' = communityPool a /\
  reservedAddr a' = reservedAddr a.
Proof.
  rewrite allocate_cases. destruct (slashed acc); [by intros [= <-] |].
  cbn zeta. destruct (_ =? 0); [by intros [= <-] |].
  destruct (outputAddr prefix acc); by intros [= <-].
Qed.

Lemma pass2_fixed p prefix l a a' :
  airdropOf (forAccounts (allocate p prefix) l a) = Some a' ->
  nonVotersMultiplier a' = nonVotersMultiplier a /\ params a' = params a /\
  atom a' = atom a /\ communityPool a' = communityPool a /\
  reservedAddr a' = reservedAddr a.
Proof.
  apply (forAccounts_inv (fun x =>
    nonVotersMultiplier x = nonVotersMultiplier a /\ params x = params a /\
    atom x = atom a /\ communityPool x = communityPool a /\
    reservedAddr x = reservedAddr a)); [| done].
  intros a0 acc a1 (<- & <- & <- & <- & <-) _. apply allocate_fixed.
Qed.


Local Abbreviation recorded :=
  (recorded voteWeights GetFromBech32 Bech32ifyAddressBytes).

Lemma addAtone_votes p m (d : distrib) (acc : Account) (o : VoteOption) :
  votes (addAtone p m d acc) o = votes d o + awardOf p m acc o.
Proof.
  unfold addAtone; cbn [votes]. rewrite !add_lookup. unfold awardOf.
  destruct o; repeat case_decide; try done; lia.
Qed.

(** The aggregates after a completed loop: sums over the accounts that are
    not slashed, and the slashed amounts apart. *)
Lemma pass2_Done_sums p prefix l a a' :
  forAccounts (allocate p prefix) l a = Done a' ->
  supply (atone a')
    = supply (atone a) + sumOf (airdropAmt p (nonVotersMultiplier a)) (nonSlashed l) /\
  unstaked (atone a')
    = unstaked (atone a)
      + sumOf (liquidAirdropAmt p (nonVotersMultiplier a)) (nonSlashed l) /\
  (forall o, votes (atone a') o
     = votes (atone a) o
       + sumOf (fun b => awardOf p (nonVotersMultiplier a) b o) (nonSlashed l)) /\
  icfSlash a'
    = icfSlash a + sumOf (fun b => LiquidAmount b + StakedAmount b) (onlySlashed l).
Proof.
  revert a. induction l as [| acc l IH]; intros a; cbn [forAccounts].
  - intros [= <-]. cbn. repeat split; intros; lia.
  - destruct (allocate p prefix a acc) as [a1 | |] eqn:Hb; [| done | done].
    intros Hl. destruct (IH _ Hl) as (Hs & Hu & Hv & Hi).
    destruct (allocate_fixed p prefix a acc a1) as (Hm & _); [by rewrite Hb |].
    rewrite Hm in Hs, Hu, Hv.
    rewrite allocate_cases in Hb. unfold nonSlashed, onlySlashed in *.
    cbn [List.filter]. unfold sumOf in *. destruct (slashed acc); cbn [negb foldr].
    + injection Hb as <-. cbn [atone icfSlash set_icfSlash] in *.
      repeat split; [lia | lia | intros o; rewrite Hv; lia | lia].
    + cbn zeta in Hb.
      assert (atone a1 = addAtone p (nonVotersMultiplier a) (atone a) acc
              /\ icfSlash a1 = icfSlash a) as [Ha1 Hi1].
      { destruct (_ =? 0); [by injection Hb as <- |].
        destruct (outputAddr prefix acc); [by injection Hb as <- | done]. }
      rewrite Ha1 in Hs, Hu, Hv.
      unfold addAtone in Hs, Hu. cbn [supply unstaked] in Hs, Hu.
      unfold Add in Hs, Hu.
      repeat split; [lia | lia | | lia].
      intros o. rewrite Hv, addAtone_votes. lia.
Qed.

(** Where the entries of the two mappings come from. *)
Lemma allocate_entries p prefix a acc a' :
  airdropOf (allocate p prefix a acc) = Some a' ->
  (forall k v, addresses a' !! k = Some v ->
     addresses a !! k = Some v \/
     recorded p (nonVotersMultiplier a) prefix acc k /\
     v = RoundInt (airdropAmt p (nonVotersMultiplier a) acc)) /\
  (forall k d, addressesDetail a' !! k = Some d ->
     addressesDetail a !! k = Some d \/
     recorded p (nonVotersMultiplier a) prefix acc k /\
     d = detailOf p (nonVotersMultiplier a) acc).
Proof.
  rewrite allocate_cases. unfold recorded.
  destruct (slashed acc); [intros [= <-]; split; intros; by left |].
  cbn zeta. destruct (Z.eqb_spec (RoundInt (airdropAmt p (nonVotersMultiplier a) acc)) 0);
    [intros [= <-]; split; intros; by left |].
  destruct (outputAddr prefix acc) as [addr | err];
    [| intros [= <-]; split; intros; by left].
  intros [= <-]. cbn [addresses addressesDetail record set_atone].
  split; intros k x; rewrite lookup_insert; case_decide; subst;
    intros Hx; try (by left); injection Hx as <-; by right.
Qed.

Lemma pass2_entries p prefix l a a' :
  airdropOf (forAccounts (allocate p prefix) l a) = Some a' ->
  (forall k v, addresses a' !! k = Some v ->
     addresses a !! k = Some v \/
     exists b, b ∈ l /\ recorded p (nonVotersMultiplier a) prefix b k /\
               v = RoundInt (airdropAmt p (nonVotersMultiplier a) b)) /\
  (forall k d, addressesDetail a' !! k = Some d ->
     addressesDetail a !! k = Some d \/
     exists b, b ∈ l /\ recorded p (nonVotersMultiplier a) prefix b k /\
               d = detailOf p (nonVotersMultiplier a) b).
Proof.
  intros H.
  apply (forAccounts_inv (fun x =>
    nonVotersMultiplier x = nonVotersMultiplier a /\
    (forall k v, addresses x !! k = Some v ->
       addresses a !! k = Some v \/
       exists b, b ∈ l /\ recorded p (nonVotersMultiplier a) prefix b k /\
                 v = RoundInt (airdropAmt p (nonVotersMultiplier a) b)) /\
    (forall k d, addressesDetail x !! k = Some d ->
       addressesDetail a !! k = Some d \/
       exists b, b ∈ l /\ recorded p (nonVotersMultiplier a) prefix b k /\
                 d = detailOf p (nonVotersMultiplier a) b))) in H.
  - tauto.
  - intros a0 acc a1 (Hm & Hk & Hd) Hin Hs.
    destruct (allocate_fixed _ _ _ _ _ Hs) as (Hm1 & _).
    destruct (allocate_entries _ _ _ _ _ Hs) as (Hk1 & Hd1).
    rewrite Hm in *. split; [congruence |]. split.
    + intros k v Hv. destruct (Hk1 k v Hv) as [? | [? ?]]; [by apply Hk |].
      right. by exists acc.
    + intros k d Hv. destruct (Hd1 k d Hv) as [? | [? ?]]; [by apply Hd |].
      right. by exists acc.
  - split; [done |]. split; intros; by left.
Qed.



(** The loop completes when every address it has to convert converts. *)
Lemma pass2_Done p prefix l a :
  (forall b, b ∈ l -> slashed b = false ->
     RoundInt (airdropAmt p (nonVotersMultiplier a) b) <> 0 ->
     exists k, outputAddr prefix b = inl k) ->
  exists a', forAccounts (allocate p prefix) l a = Done a'.
Proof.
  revert a. induction l as [| acc l IH]; intros a Hconv; cbn [forAccounts];
    [by eexists |].
  assert (exists a1, allocate p prefix a acc = Done a1) as [a1 H1].
  { rewrite allocate_cases. destruct (slashed acc) eqn:Hsl; [by eexists |].
    cbn zeta.
    destruct (Z.eqb_spec (RoundInt (airdropAmt p (nonVotersMultiplier a) acc)) 0);
      [by eexists |].
    destruct (Hconv acc) as [k ->]; [by left | done | done | by eexists]. }
  rewrite H1. apply IH.
  destruct (allocate_fixed p prefix a acc a1) as (-> & _); [by rewrite H1 |].
  intros b Hb. apply Hconv. by right.
Qed.


Lemma pass2_Fail_elim p prefix l a a' err :
  forAccounts (allocate p prefix) l a = Fail a' err ->
  exists l1 acc l2 a1,
    l = l1 ++ acc :: l2 /\
    forAccounts (allocate p prefix) l1 a = Done a1 /\
    slashed acc = false /\
    RoundInt (airdropAmt p (nonVotersMultiplier a) acc) <> 0 /\
    outputAddr prefix acc = inr err /\
    a' = set_atone a1 (addAtone p (nonVotersMultiplier a) (atone a1) acc).
Proof.
  revert a. induction l as [| acc l IH]; intros a; cbn [forAccounts]; [done |].
  destruct (allocate p prefix a acc) as [a1 | a1 e |] eqn:Hb; [| | done].
  - intros H. destruct (IH _ H) as (l1 & b & l2 & a2 & -> & H1 & Hsl & Hnz & Hout & ->).
    destruct (allocate_fixed p prefix a acc a1) as (Hm & _); [by rewrite Hb |].
    rewrite Hm in *.
    exists (acc :: l1), b, l2, a2. cbn [forAccounts]. rewrite Hb. done.
  - intros [= -> ->]. exists [], acc, l, a. cbn [forAccounts].
    rewrite allocate_cases in Hb. destruct (slashed acc); [done |].
    cbn zeta in Hb.
    destruct (Z.eqb_spec (RoundInt (airdropAmt p (nonVotersMultiplier a) acc)) 0);
      [done |].
    destruct (outputAddr prefix acc); [done |].
    by injection Hb as <- <-.
Qed.

(** *** Conservation in the $ATONE distribution *)

Lemma addAtone_conserved p m d acc :
  Add (sumVotes (votes d)) (unstaked d) = supply d ->
  Add (sumVotes (votes (addAtone p m d acc))) (unstaked (addAtone p m d acc))
    = supply (addAtone p m d acc).
Proof.
  unfold sumVotes. rewrite !addAtone_votes. unfold addAtone.
  cbn [supply unstaked awardOf]. unfold airdropAmt, stakedAirdropAmt, Add. lia.
Qed.

Lemma pass2_conserved p prefix l a a' :
  Add (sumVotes (votes (atone a))) (unstaked (atone a)) = supply (atone a) ->
  airdropOf (forAccounts (allocate p prefix) l a) = Some a' ->
  Add (sumVotes (votes (atone a'))) (unstaked (atone a')) = supply (atone a').
Proof.
  apply (forAccounts_inv (fun x =>
    Add (sumVotes (votes (atone x))) (unstaked (atone x)) = supply (atone x))).
  intros a0 acc a1 H0 _. rewrite allocate_cases.
  destruct (slashed acc); [by intros [= <-] |].
  cbn zeta. destruct (_ =? 0); [intros [= <-]; by apply addAtone_conserved |].
  destruct (outputAddr prefix acc); intros [= <-]; by apply addAtone_conserved.
Qed.

(** *** The whole call *)

Lemma mint_Done p a :
  exists cp, mint p a = Done (set_minted a cp cp).
Proof.
  unfold mint.
  destruct (Quo_Some (Mul (supply (atone a)) (supplyMintFactor p)) (NewDec 2))
    as [cp ->]; [done | by exists cp].
Qed.

(** The call, once the multiplier is known. *)
Lemma distribution_solved accounts p prefix m :
  solveNonVotersMultiplier (atomDistrib accounts) p = Some m ->
  distribution accounts p prefix =
    match forAccounts (allocate p prefix) accounts
            (solvedAirdrop p (atomDistrib accounts) m) with
    | Done a => mint p a
    | o => o
    end.
Proof. intros H. unfold distribution. by rewrite H. Qed.


Lemma solve_None accounts p :
  noVotersAtomTotalAmt (atomDistrib accounts) = 0 ->
  solveNonVotersMultiplier (atomDistrib accounts) p = None.
Proof.
  intros H. unfold solveNonVotersMultiplier. by rewrite H.
Qed.

(** Every airdrop the call hands back went through the second loop, in
    full ([Done]) or in part ([Fail]). *)
Lemma distribution_inv accounts p prefix r :
  airdropOf (distribution accounts p prefix) = Some r ->
  exists m a,
    solveNonVotersMultiplier (atomDistrib accounts) p = Some m /\
    airdropOf (forAccounts (allocate p prefix) accounts
                 (solvedAirdrop p (atomDistrib accounts) m)) = Some a /\
    addresses r = addresses a /\ addressesDetail r = addressesDetail a /\
    nonVotersMultiplier r = m /\ atom r = atomDistrib accounts /\
    atone r = atone a /\ icfSlash r = icfSlash a /\ params r = p.
Proof.
  unfold distribution.
  destruct (solveNonVotersMultiplier (atomDistrib accounts) p) as [m |] eqn:Hm;
    [| done].
  destruct (forAccounts _ accounts _) as [a | a e |] eqn:Hl; [| | done].
  - destruct (mint_Done p a) as [cp ->]. intros [= <-]. exists m, a.
    destruct (pass2_fixed p prefix accounts
              (solvedAirdrop p (atomDistrib accounts) m) a) as (? & ? & ? & _);
      [by rewrite Hl |].
    cbn in *. rewrite Hl. by repeat split.
  - intros [= <-]. exists m, a.
    destruct (pass2_fixed p prefix accounts
              (solvedAirdrop p (atomDistrib accounts) m) a) as (? & ? & ? & _);
      [by rewrite Hl |].
    cbn in *. rewrite Hl. by repeat split.
Qed.

Lemma distribution_Done_inv accounts p prefix r :
  distribution accounts p prefix = Done r ->
  exists m a,
    solveNonVotersMultiplier (atomDistrib accounts) p = Some m /\
    forAccounts (allocate p prefix) accounts
      (solvedAirdrop p (atomDistrib accounts) m) = Done a /\
    addresses r = addresses a /\ addressesDetail r = addressesDetail a /\
    nonVotersMultiplier r = m /\ atom r = atomDistrib accounts /\
    atone r = atone a /\ icfSlash r = icfSlash a /\ params r = p.
Proof.
  unfold distribution.
  destruct (solveNonVotersMultiplier (atomDistrib accounts) p) as [m |] eqn:Hm;
    [| done].
  destruct (forAccounts _ accounts _) as [a | a e |] eqn:Hl; [| done | done].
  destruct (mint_Done p a) as [cp ->]. intros [= <-]. exists m, a.
  destruct (pass2_fixed p prefix accounts
              (solvedAirdrop p (atomDistrib accounts) m) a) as (? & ? & ? & _);
    [by rewrite Hl |].
  cbn in *. by repeat split.
Qed.




(** ** The claims *)


(** C2, as the code has it. When the aggregated non-voter pool is zero,
    [distribution] makes no check of its own: the division is performed,
    the decimal library panics on the zero divisor, and the call ends in
    that panic.  No airdrop and no error value come back, so no award is
    computed from an invalid multiplier. *)
Theorem zero_pool_panics accounts p prefix :
  let d := atomDistrib accounts in
  let nonVoterPool :=
    Add (Add (votes d OptionAbstain) (votes d OptionEmpty)) (unstaked d) in
  nonVoterPool = 0 ->
  distribution accounts p prefix = Crash DivisionByZero /\
  airdropOf (distribution accounts p prefix) = None.
Proof.
  intros d nonVoterPool Hz. unfold distribution.
  rewrite solve_None by exact Hz. done.
Qed.


Lemma sumOf_ext {A : Type} (f g : A -> Z) (l : list A) :
  (forall a, f a = g a) -> sumOf f l = sumOf g l.
Proof.
  intros H. induction l as [| a l IH]; cbn; [done |].
  unfold sumOf in IH. by rewrite H, IH.
Qed.

(** A completed call: the airdrop of the second loop with the minted
    amounts set, its aggregates being sums over the accounts that are not
    slashed. *)
Lemma distribution_Done_sums accounts p prefix r :
  distribution accounts p prefix = Done r ->
  let m := nonVotersMultiplier r in
  supply (atone r) = sumOf (airdropAmt p m) (nonSlashed accounts) /\
  unstaked (atone r) = sumOf (liquidAirdropAmt p m) (nonSlashed accounts) /\
  (forall o, votes (atone r) o
             = sumOf (fun b => awardOf p m b o) (nonSlashed accounts)) /\
  icfSlash r
    = sumOf (fun b => LiquidAmount b + StakedAmount b) (onlySlashed accounts).
Proof.
  intros H.
  destruct (distribution_Done_inv _ _ _ _ H)
    as (m & a & Hm & Ha & _ & _ & Hnv & _ & Hat & Hic & _).
  cbn zeta. rewrite Hnv, Hat, Hic.
  destruct (pass2_Done_sums _ _ _ _ _ Ha) as (Hs & Hu & Hv & Hi).
  cbn [nonVotersMultiplier atone icfSlash solvedAirdrop zeroDistrib
         supply unstaked votes] in Hs, Hu, Hv, Hi.
  unfold ZeroDec in *. repeat split; try lia.
  intros o. rewrite Hv, newVoteMap_zero. lia.
Qed.



Lemma outputAddr_plain acc : outputAddr "" acc = inl (Address acc).
Proof. done. Qed.



Lemma nonSlashed_middle l1 acc l2 :
  slashed acc = false ->
  nonSlashed (l1 ++ acc :: l2) = nonSlashed l1 ++ acc :: nonSlashed l2.
Proof.
  intros H. unfold nonSlashed. rewrite List.filter_app. cbn [List.filter].
  by rewrite H.
Qed.

Lemma nonSlashed_app l1 l2 :
  nonSlashed (l1 ++ l2) = nonSlashed l1 ++ nonSlashed l2.
Proof. apply List.filter_app. Qed.

(** The entries of a completed call and the accounts they stand for. *)
Lemma distribution_entries accounts p prefix r :
  airdropOf (distribution accounts p prefix) = Some r ->
  (forall k v, addresses r !! k = Some v ->
     exists b, b ∈ accounts /\ recorded p (nonVotersMultiplier r) prefix b k /\
               v = RoundInt (airdropAmt p (nonVotersMultiplier r) b)) /\
  (forall k d, addressesDetail r !! k = Some d ->
     exists b, b ∈ accounts /\ recorded p (nonVotersMultiplier r) prefix b k /\
               d = detailOf p (nonVotersMultiplier r) b).
Proof.
  intros H.
  destruct (distribution_inv _ _ _ _ H)
    as (m & a & Hm & Ha & -> & -> & -> & _).
  destruct (pass2_entries _ _ _ _ _ Ha) as (Hk & Hd).
  cbn [solvedAirdrop addresses addressesDetail nonVotersMultiplier] in Hk, Hd.
  split.
  - intros k v Hv. destruct (Hk k v Hv) as [He | ?]; [| done].
    by rewrite lookup_empty in He.
  - intros k d Hv. destruct (Hd k d Hv) as [He | ?]; [| done].
    by rewrite lookup_empty in He.
Qed.

(** C6. In a completed call, an account whose address is an ICF wallet
    gets nothing: every entry of the address mapping and of the detail
    mapping was written for an account that is not slashed (so, the
    addresses being kept as they are, a slashed address is in neither
    mapping); the staked and liquid amounts of the slashed accounts, and
    nothing else, make up [icfSlash]; the votes, the supply and the
    unstaked amount of the $ATONE distribution are sums over the accounts
    that are not slashed. *)
Theorem slashed_accounts_get_nothing accounts p prefix r :
  distribution accounts p prefix = Done r ->
  let m := nonVotersMultiplier r in
  let isSlashed a := Contains icfWallets (Address a) in
  (forall k, is_Some (addresses r !! k) \/ is_Some (addressesDetail r !! k) ->
     exists b, b ∈ accounts /\ isSlashed b = false /\ outputAddr prefix b = inl k) /\
  (prefix = "" ->
   forall a, a ∈ accounts -> isSlashed a = true ->
     addresses r !! Address a = None /\ addressesDetail r !! Address a = None) /\
  icfSlash r
    = sumOf (fun a => Add (StakedAmount a) (LiquidAmount a))
        (List.filter isSlashed accounts) /\
  supply (atone r)
    = sumOf (airdropAmt p m) (List.filter (fun a => negb (isSlashed a)) accounts) /\
  unstaked (atone r)
    = sumOf (liquidAirdropAmt p m)
        (List.filter (fun a => negb (isSlashed a)) accounts) /\
  forall o, votes (atone r) o
            = sumOf (fun b => awardOf p m b o)
                (List.filter (fun a => negb (isSlashed a)) accounts).
Proof.
  intros H m isSlashed.
  assert (airdropOf (distribution accounts p prefix) = Some r) as Hr
    by (by rewrite H).
  destruct (distribution_entries _ _ _ _ Hr) as (Hk & Hd).
  assert (forall k, is_Some (addresses r !! k) \/ is_Some (addressesDetail r !! k) ->
     exists b, b ∈ accounts /\ isSlashed b = false /\ outputAddr prefix b = inl k)
    as Hkeys.
  { intros k [[v Hv] | [d Hv]].
    - destruct (Hk k v Hv) as (b & Hb & (Hbs & _ & Hbo) & _).
      exists b. split; [exact Hb |]. split; [exact Hbs | exact Hbo].
    - destruct (Hd k d Hv) as (b & Hb & (Hbs & _ & Hbo) & _).
      exists b. split; [exact Hb |]. split; [exact Hbs | exact Hbo]. }
  split; [exact Hkeys |]. split.
  - intros -> a Ha Hsl.
    assert (~ (is_Some (addresses r !! Address a)
               \/ is_Some (addressesDetail r !! Address a))) as Hnot.
    { intros Hs. destruct (Hkeys _ Hs) as (b & _ & Hb & Hout).
      rewrite outputAddr_plain in Hout. injection Hout as Hout.
      unfold isSlashed in *. rewrite Hout in Hb. congruence. }
    split; apply eq_None_not_Some; tauto.
  - destruct (distribution_Done_sums _ _ _ _ H) as (Hs & Hu & Hv & Hi).
    fold m in Hs, Hu, Hv.
    split; [| split; [exact Hs | split; [exact Hu | exact Hv]]].
    rewrite Hi. apply sumOf_ext. intros a. unfold Add. lia.
Qed.

(** C7. In a completed call, an account that is not slashed and whose
    total award rounds to the integer zero writes no entry: every entry of
    the two mappings stands for another account, one with a rounded award
    that is not zero, and no amount of the address mapping is zero.  Its
    decimal awards are in the $ATONE aggregates all the same, which add
    the unrounded amounts. *)
Theorem zero_awards_left_out l1 acc l2 p prefix r :
  distribution (l1 ++ acc :: l2) p prefix = Done r ->
  let m := nonVotersMultiplier r in
  Contains icfWallets (Address acc) = false ->
  RoundInt (airdropAmt p m acc) = 0 ->
  (forall k, is_Some (addresses r !! k) \/ is_Some (addressesDetail r !! k) ->
     exists b, b ∈ l1 ++ l2 /\ Contains icfWallets (Address b) = false /\
               RoundInt (airdropAmt p m b) <> 0 /\ outputAddr prefix b = inl k) /\
  (forall k v, addresses r !! k = Some v -> v <> 0) /\
  supply (atone r)
    = sumOf (airdropAmt p m) (nonSlashed (l1 ++ l2)) + airdropAmt p m acc /\
  unstaked (atone r)
    = sumOf (liquidAirdropAmt p m) (nonSlashed (l1 ++ l2))
      + liquidAirdropAmt p m acc /\
  forall o, votes (atone r) o
            = sumOf (fun b => awardOf p m b o) (nonSlashed (l1 ++ l2))
              + awardOf p m acc o.
Proof.
  intros H m Hsl Hz.
  assert (airdropOf (distribution (l1 ++ acc :: l2) p prefix) = Some r) as Hr
    by (by rewrite H).
  destruct (distribution_entries _ _ _ _ Hr) as (Hk & Hd). fold m in Hk, Hd.
  assert (forall b k, b ∈ l1 ++ acc :: l2 -> recorded p m prefix b k ->
            b ∈ l1 ++ l2 /\ Contains icfWallets (Address b) = false /\
            RoundInt (airdropAmt p m b) <> 0 /\ outputAddr prefix b = inl k)
    as Hother.
  { intros b k Hb (Hbs & Hbz & Hbo).
    split; [| split; [exact Hbs | split; [exact Hbz | exact Hbo]]].
    apply elem_of_app in Hb as [Hb | Hb]; [apply elem_of_app; by left |].
    apply elem_of_cons in Hb as [-> | Hb]; [contradiction |].
    apply elem_of_app; by right. }
  split; [| split].
  - intros k [[v Hv] | [d Hv]].
    + destruct (Hk k v Hv) as (b & Hb & Hrec & _). exists b. by apply Hother.
    + destruct (Hd k d Hv) as (b & Hb & Hrec & _). exists b. by apply Hother.
  - intros k v Hv. destruct (Hk k v Hv) as (b & _ & (_ & Hnz & _) & ->).
    exact Hnz.
  - destruct (distribution_Done_sums _ _ _ _ H) as (Hs & Hu & Hv & _).
    fold m in Hs, Hu, Hv.
    rewrite nonSlashed_middle in Hs, Hu, Hv by exact Hsl.
    rewrite nonSlashed_app.
    rewrite Hs, Hu. split; [| split].
    + rewrite !sumOf_app, sumOf_cons. lia.
    + rewrite !sumOf_app, sumOf_cons. lia.
    + intros o. rewrite Hv, !sumOf_app, sumOf_cons. lia.
Qed.

(** *** Conservation in the $ATOM distribution, up to rounding *)

Local Abbreviation excessOf := (excessOf voteWeights).

Lemma addAtom_excess d acc : excess (addAtom d acc) = excess d + excessOf acc.
Proof.
  unfold excess, excessOf, sumVotes. rewrite !addAtom_votes.
  unfold addAtom. cbn [supply unstaked]. unfold Add. lia.
Qed.

Lemma fold_addAtom_excess l d :
  excess (fold_left addAtom l d) = excess d + sumOf excessOf l.
Proof.
  revert d. induction l as [| acc l IH]; intros d; cbn [fold_left].
  - cbn. lia.
  - rewrite IH, addAtom_excess. unfold sumOf. cbn [foldr]. lia.
Qed.

(** Each of the five products is rounded by half a unit of the last place
    at most, so an account with weights adding up to one is off by two
    units at most. *)
Lemma excessOf_bound acc :
  sumVotes (voteWeights acc) = OneDec -> Z.abs (excessOf acc) <= 2.
Proof.
  unfold sumVotes, Add, OneDec. intros Hw. unfold excessOf, atomAmtOf.
  pose proof (Mul_near (voteWeights acc OptionYes) (StakedAmount acc)).
  pose proof (Mul_near (voteWeights acc OptionNo) (StakedAmount acc)).
  pose proof (Mul_near (voteWeights acc OptionNoWithVeto) (StakedAmount acc)).
  pose proof (Mul_near (voteWeights acc OptionAbstain) (StakedAmount acc)).
  pose proof (Mul_near (voteWeights acc OptionEmpty) (StakedAmount acc)).
  assert (voteWeights acc OptionYes * StakedAmount acc
          + voteWeights acc OptionNo * StakedAmount acc
          + voteWeights acc OptionNoWithVeto * StakedAmount acc
          + voteWeights acc OptionAbstain * StakedAmount acc
          + voteWeights acc OptionEmpty * StakedAmount acc
          = precisionReuse * StakedAmount acc) as E
    by (rewrite <- Hw; ring).
  rewrite precisionReuse_val in *. lia.
Qed.

(** A stake in whole units is split without rounding. *)
Lemma excessOf_whole acc k :
  sumVotes (voteWeights acc) = OneDec -> StakedAmount acc = NewDec k ->
  excessOf acc = 0.
Proof.
  unfold sumVotes, Add, OneDec. intros Hw Hk. unfold excessOf, atomAmtOf.
  rewrite Hk, !Mul_whole. unfold NewDec. rewrite <- Hw. ring.
Qed.

Lemma sumOf_abs_bound {A : Type} (f : A -> Z) (c : Z) (l : list A) :
  (forall a, a ∈ l -> Z.abs (f a) <= c) ->
  Z.abs (sumOf f l) <= c * Z.of_nat (length l).
Proof.
  induction l as [| a l IH]; intros H; [cbn; lia |].
  assert (Z.abs (f a) <= c) by (apply H; by left).
  assert (Z.abs (sumOf f l) <= c * Z.of_nat (length l))
    by (apply IH; intros; apply H; by right).
  unfold sumOf in *. cbn [foldr length]. lia.
Qed.

Lemma sumOf_zero {A : Type} (f : A -> Z) (l : list A) :
  (forall a, a ∈ l -> f a = 0) -> sumOf f l = 0.
Proof.
  induction l as [| a l IH]; intros H; [done |].
  assert (f a = 0) by (apply H; by left).
  assert (sumOf f l = 0) by (apply IH; intros; apply H; by right).
  unfold sumOf in *. cbn [foldr]. lia.
Qed.

Lemma atomDistrib_excess l : excess (atomDistrib l) = sumOf excessOf l.
Proof.
  unfold atomDistrib. rewrite fold_addAtom_excess. done.
Qed.

(** C8, as the code has it. In every airdrop [distribution] hands back the
    $ATONE distribution is conserved exactly: its five votes and its
    unstaked amount add up to its supply, whatever the weights.  In the
    $ATOM distribution, when the weights of every account add up to one,
    the same sum is equal to the supply up to the rounding of the products
    weight * stake: the difference is at most two units of the last
    decimal place per account, and it is zero when every stake is a whole
    number. *)
Theorem distribs_conserved accounts p prefix r :
  airdropOf (distribution accounts p prefix) = Some r ->
  let total d :=
    Add (Add (Add (Add (Add (votes d OptionYes) (votes d OptionNo))
                       (votes d OptionNoWithVeto))
                  (votes d OptionAbstain))
             (votes d OptionEmpty))
        (unstaked d) in
  let weights a :=
    Add (Add (Add (Add (voteWeights a OptionYes) (voteWeights a OptionNo))
                  (voteWeights a OptionNoWithVeto))
             (voteWeights a OptionAbstain))
        (voteWeights a OptionEmpty) in
  total (atone r) = supply (atone r) /\
  ((forall a, a ∈ accounts -> weights a = OneDec) ->
   Z.abs (total (atom r) - supply (atom r)) <= 2 * Z.of_nat (length accounts)) /\
  ((forall a, a ∈ accounts ->
      weights a = OneDec /\ exists k, StakedAmount a = NewDec k) ->
   total (atom r) = supply (atom r)).
Proof.
  intros Hr total weights.
  destruct (distribution_inv _ _ _ _ Hr)
    as (m & a & Hm & Ha & _ & _ & _ & Hatom & Hatone & _).
  assert (forall d, total d - supply d = excess d) as Hex
    by (intros d; unfold total, excess, sumVotes, Add; lia).
  split; [| split].
  - rewrite Hatone.
    pose proof (pass2_conserved p prefix accounts
                  (solvedAirdrop p (atomDistrib accounts) m) a) as Hc.
    unfold sumVotes in Hc. apply Hc; [| done].
    cbn. by rewrite !newVoteMap_zero.
  - intros Hw. rewrite Hex, Hatom, atomDistrib_excess.
    apply sumOf_abs_bound. intros b Hb. apply excessOf_bound, Hw, Hb.
  - intros Hw.
    enough (total (atom r) - supply (atom r) = 0) by lia.
    rewrite Hex, Hatom, atomDistrib_excess.
    apply sumOf_zero. intros b Hb. destruct (Hw b Hb) as (H1 & k & Hk).
    by apply (excessOf_whole b k).
Qed.



(** ** Further properties of [distribution] *)


(** X2. On an empty account list the pool is zero and the call panics in
    the division, whatever the parameters and the prefix. *)
Theorem empty_accounts_panic p prefix :
  distribution [] p prefix = Crash DivisionByZero.
Proof.
  unfold distribution. rewrite solve_None; reflexivity.
Qed.

Lemma Quo_half (d : Dec) :
  exists h, Quo d (NewDec 2) = Some h /\ Z.abs (2 * h - d) <= 1.
Proof.
  unfold Quo. change (NewDec 2 =? 0) with false. cbv iota.
  eexists. split; [reflexivity |].
  replace (d * precisionReuse * precisionReuse)
    with (d * (precisionReuse / 2) * NewDec 2)
    by (unfold NewDec; rewrite precisionReuse_val;
        change (1000000000000000000 / 2) with 500000000000000000; ring).
  rewrite Z.quot_mul by (vm_compute; discriminate).
  pose proof (chopPrecisionAndRound_near (d * (precisionReuse / 2))) as H.
  rewrite precisionReuse_val in H.
  change (1000000000000000000 / 2) with 500000000000000000 in *.
  rewrite precisionReuse_val.
  change (1000000000000000000 / 2) with 500000000000000000. lia.
Qed.

(** X3. A completed call sets the community pool and the reserved amount to
    the same decimal, a half of the minted part
    supply * supplyMintFactor, rounded: twice that half is within one unit
    of the last decimal place of the minted part. *)
Theorem minted_halves accounts p prefix r :
  distribution accounts p prefix = Done r ->
  let minted := Mul (supply (atone r)) (supplyMintFactor p) in
  exists half,
    communityPool r = Some half /\ reservedAddr r = Some half /\
    Z.abs (2 * half - minted) <= 1.
Proof.
  unfold distribution.
  destruct (solveNonVotersMultiplier _ p) as [m |]; [| intros H; discriminate H].
  destruct (forAccounts _ accounts _) as [a | |];
    [| intros H; discriminate H | intros H; discriminate H].
  unfold mint.
  destruct (Quo_half (Mul (supply (atone a)) (supplyMintFactor p)))
    as (h & -> & Hh).
  intros [= <-]. exists h. cbn [communityPool reservedAddr atone set_minted].
  split; [reflexivity |]. split; [reflexivity | exact Hh].
Qed.

Lemma distribution_Done_minted accounts p prefix r :
  distribution accounts p prefix = Done r ->
  communityPool r = Quo (Mul (supply (atone r)) (supplyMintFactor p)) (NewDec 2) /\
  reservedAddr r = Quo (Mul (supply (atone r)) (supplyMintFactor p)) (NewDec 2).
Proof.
  unfold distribution.
  destruct (solveNonVotersMultiplier _ p) as [m |]; [| intros H; discriminate H].
  destruct (forAccounts _ accounts _) as [a | |];
    [| intros H; discriminate H | intros H; discriminate H].
  unfold mint.
  destruct (Quo (Mul (supply (atone a)) (supplyMintFactor p)) (NewDec 2))
    as [h |] eqn:Hq; [| intros H; discriminate H].
  intros [= <-]. cbn [communityPool reservedAddr atone set_minted].
  rewrite Hq. split; reflexivity.
Qed.

(** The amount stored for a key is the rounded total of its audit record. *)
Lemma pass2_amount_of_detail p prefix l a a' :
  (forall k, addresses a !! k
             = (fun d => RoundInt (Total d)) <$> addressesDetail a !! k) ->
  airdropOf (forAccounts (allocate p prefix) l a) = Some a' ->
  forall k, addresses a' !! k
            = (fun d => RoundInt (Total d)) <$> addressesDetail a' !! k.
Proof.
  apply (forAccounts_inv (fun x =>
    forall k, addresses x !! k
              = (fun d => RoundInt (Total d)) <$> addressesDetail x !! k)).
  intros a0 acc a1 H0 _. rewrite allocate_cases.
  destruct (slashed acc); [intros [= <-]; exact H0 |].
  cbn zeta. destruct (_ =? 0); [intros [= <-]; exact H0 |].
  destruct (outputAddr prefix acc) as [addr | err]; intros [= <-]; [| exact H0].
  intros k. cbn [addresses addressesDetail record set_atone].
  rewrite !lookup_insert. case_decide; [reflexivity | apply H0].
Qed.

(** X4. In every airdrop the call hands back, the address mapping is the
    detail mapping with each record replaced by its rounded total: the two
    mappings have the same keys, the amount of a key is the integer its
    total rounds to, and that integer is not zero. *)
Theorem addresses_follow_details accounts p prefix r :
  airdropOf (distribution accounts p prefix) = Some r ->
  (forall k, addresses r !! k
             = (fun d => RoundInt (Total d)) <$> addressesDetail r !! k) /\
  (forall k d, addressesDetail r !! k = Some d -> RoundInt (Total d) <> 0).
Proof.
  intros Hr.
  destruct (distribution_inv _ _ _ _ Hr) as (m & a & Hm & Ha & -> & -> & _).
  split.
  - apply (pass2_amount_of_detail p prefix accounts
             (solvedAirdrop p (atomDistrib accounts) m) a); [| exact Ha].
    intros k. cbn [addresses addressesDetail solvedAirdrop].
    rewrite !lookup_empty. reflexivity.
  - intros k d Hd.
    destruct (pass2_entries _ _ _ _ _ Ha) as (_ & Hent).
    destruct (Hent k d Hd) as [He | (b & _ & (_ & Hnz & _) & ->)].
    + cbn [addressesDetail solvedAirdrop] in He.
      rewrite lookup_empty in He. discriminate.
    + exact Hnz.
Qed.

Lemma Mul_OneDec (d : Dec) : Mul d OneDec = d.
Proof.
  change OneDec with (NewDec 1). rewrite Mul_whole. lia.
Qed.

(** X5. Every audit record the call stores can be recomputed from its own
    fields: for the Yes, No, NoWithVeto, Abstain and did-not-vote buckets
    the result amount is source * multiplier * bonusMalus * factor,
    multiplied from left to right; for the liquid bucket it is
    source * (multiplier * bonusMalus) * factor.  The factor is the supply
    factor throughout, and the multiplier of the Abstain, did-not-vote and
    liquid buckets is the non-voters multiplier of the airdrop. *)
Theorem details_recompute accounts p prefix r k d :
  airdropOf (distribution accounts p prefix) = Some r ->
  addressesDetail r !! k = Some d ->
  let product x :=
    Mul (Mul (Mul (AtomAmt x) (Multiplier x)) (BonusMalus x)) (Factor x) in
  AtoneAmt (YesDetail d) = product (YesDetail d) /\
  AtoneAmt (NoDetail d) = product (NoDetail d) /\
  AtoneAmt (NWVDetail d) = product (NWVDetail d) /\
  AtoneAmt (AbsDetail d) = product (AbsDetail d) /\
  AtoneAmt (DnvDetail d) = product (DnvDetail d) /\
  AtoneAmt (LiquidDetail d)
    = Mul (Mul (AtomAmt (LiquidDetail d))
               (Mul (Multiplier (LiquidDetail d)) (BonusMalus (LiquidDetail d))))
          (Factor (LiquidDetail d)) /\
  Forall (fun x => Factor x = supplyFactor p)
    [YesDetail d; NoDetail d; NWVDetail d; AbsDetail d; DnvDetail d; LiquidDetail d] /\
  Forall (fun x => Multiplier x = nonVotersMultiplier r)
    [AbsDetail d; DnvDetail d; LiquidDetail d].
Proof.
  intros Hr Hd product.
  destruct (distribution_entries _ _ _ _ Hr) as (_ & Hent).
  destruct (Hent k d Hd) as (b & _ & _ & ->).
  unfold product, detailOf.
  cbn [YesDetail NoDetail NWVDetail AbsDetail DnvDetail LiquidDetail
         AtomAmt Multiplier BonusMalus Factor AtoneAmt].
  rewrite !Mul_OneDec.
  repeat split; try reflexivity; repeat constructor.
Qed.

(** *** Independence of the order of the accounts *)

Lemma sumOf_Permutation {A : Type} (f : A -> Z) (l l' : list A) :
  Permutation l l' -> sumOf f l = sumOf f l'.
Proof.
  induction 1 as [| x l l' _ IH | x y l | l l' l'' _ IH1 _ IH2].
  - reflexivity.
  - rewrite !sumOf_cons, IH. reflexivity.
  - rewrite !sumOf_cons. lia.
  - congruence.
Qed.

Lemma sumOf_nonSlashed (f : Account -> Z) (l : list Account) :
  sumOf f (nonSlashed l) = sumOf (fun b => if slashed b then 0 else f b) l.
Proof.
  induction l as [| b l IH]; [reflexivity |].
  unfold nonSlashed in *. cbn [List.filter]. rewrite sumOf_cons.
  destruct (slashed b); cbn [negb]; [| rewrite sumOf_cons]; lia.
Qed.

Lemma sumOf_onlySlashed (f : Account -> Z) (l : list Account) :
  sumOf f (onlySlashed l) = sumOf (fun b => if slashed b then f b else 0) l.
Proof.
  induction l as [| b l IH]; [reflexivity |].
  unfold onlySlashed in *. cbn [List.filter]. rewrite sumOf_cons.
  destruct (slashed b); [rewrite sumOf_cons |]; lia.
Qed.

Lemma solve_Permutation l l' p :
  Permutation l l' ->
  solveNonVotersMultiplier (atomDistrib l') p
    = solveNonVotersMultiplier (atomDistrib l) p.
Proof.
  intros HP.
  destruct (atomDistrib_sums l) as (_ & Hu & Hv).
  destruct (atomDistrib_sums l') as (_ & Hu' & Hv').
  unfold solveNonVotersMultiplier, yesAtoneTotalAmt, noAtoneTotalAmt,
    noVotersAtomTotalAmt.
  rewrite Hu, Hu', !Hv, !Hv'.
  rewrite (sumOf_Permutation LiquidAmount l l' HP).
  rewrite !(sumOf_Permutation _ l l' HP). reflexivity.
Qed.

(** A loop that completes converted every address it had to. *)
Lemma pass2_Done_converted p prefix l a a' :
  forAccounts (allocate p prefix) l a = Done a' ->
  forall b, b ∈ l -> slashed b = false ->
    RoundInt (airdropAmt p (nonVotersMultiplier a) b) <> 0 ->
    exists k, outputAddr prefix b = inl k.
Proof.
  revert a. induction l as [| acc l IH]; intros a H b Hb Hsl Hnz.
  - by apply elem_of_nil in Hb.
  - cbn [forAccounts] in H.
    destruct (allocate p prefix a acc) as [a1 | |] eqn:Hstep;
      [| discriminate H | discriminate H].
    destruct (allocate_fixed p prefix a acc a1) as (Hm & _);
      [by rewrite Hstep |].
    apply elem_of_cons in Hb as [-> | Hb].
    + rewrite allocate_cases, Hsl in Hstep. cbn zeta in Hstep.
      destruct (Z.eqb_spec (RoundInt (airdropAmt p (nonVotersMultiplier a) acc)) 0);
        [contradiction |].
      destruct (outputAddr prefix acc) as [k |]; [by exists k | discriminate Hstep].
    + apply (IH a1 H b Hb Hsl). by rewrite Hm.
Qed.

(** Keys stay, and every account to be recorded has its key in the
    mappings of a completed loop. *)
Lemma pass2_keys_present p prefix l a a' :
  forAccounts (allocate p prefix) l a = Done a' ->
  forall k,
    (is_Some (addresses a !! k) \/
     exists b, b ∈ l /\ recorded p (nonVotersMultiplier a) prefix b k) ->
    is_Some (addresses a' !! k).
Proof.
  revert a. induction l as [| acc l IH]; intros a H k Hk.
  - cbn in H. injection H as <-. destruct Hk as [Hk | (b & Hb & _)]; [exact Hk |].
    by apply elem_of_nil in Hb.
  - cbn [forAccounts] in H.
    destruct (allocate p prefix a acc) as [a1 | |] eqn:Hstep;
      [| discriminate H | discriminate H].
    destruct (allocate_fixed p prefix a acc a1) as (Hm & _);
      [by rewrite Hstep |].
    apply (IH a1 H k). rewrite Hm.
    assert (is_Some (addresses a !! k) \/ recorded p (nonVotersMultiplier a) prefix acc k
            -> is_Some (addresses a1 !! k)) as Hone.
    { rewrite allocate_cases in Hstep. unfold recorded.
      destruct (slashed acc).
      - injection Hstep as <-. intros [? | (? & _)]; [assumption | discriminate].
      - cbn zeta in Hstep.
        destruct (Z.eqb_spec (RoundInt (airdropAmt p (nonVotersMultiplier a) acc)) 0).
        + injection Hstep as <-. intros [? | (_ & ? & _)]; [assumption | contradiction].
        + destruct (outputAddr prefix acc) as [addr |]; [| discriminate Hstep].
          injection Hstep as <-. cbn [addresses record set_atone].
          intros [Hs | (_ & _ & [= ->])].
          * rewrite lookup_insert. case_decide; [by eexists | exact Hs].
          * rewrite lookup_insert_eq. by eexists. }
    destruct Hk as [Hk | (b & Hb & Hrec)].
    + left. apply Hone. by left.
    + apply elem_of_cons in Hb as [-> | Hb].
      * left. apply Hone. by right.
      * right. by exists b.
Qed.

Lemma elem_of_Permutation_acc (l l' : list Account) (b : Account) :
  Permutation l l' -> b ∈ l' -> b ∈ l.
Proof.
  intros HP Hb. apply list_elem_of_In. apply list_elem_of_In in Hb.
  apply (Permutation_in b (Permutation_sym HP) Hb).
Qed.

(** X6. The aggregates of a completed call do not depend on the order of
    the accounts: on any reordering of the list the call completes as well,
    with the same multiplier, the same $ATOM and $ATONE votes, supply and
    unstaked amounts, the same slashed amount and minted halves, and the
    same set of recorded addresses. *)
Theorem order_independent accounts accounts' p prefix r :
  Permutation accounts accounts' ->
  distribution accounts p prefix = Done r ->
  exists r',
    distribution accounts' p prefix = Done r' /\
    nonVotersMultiplier r' = nonVotersMultiplier r /\
    (supply (atom r') = supply (atom r) /\ unstaked (atom r') = unstaked (atom r) /\
     forall o, votes (atom r') o = votes (atom r) o) /\
    (supply (atone r') = supply (atone r) /\ unstaked (atone r') = unstaked (atone r) /\
     forall o, votes (atone r') o = votes (atone r) o) /\
    icfSlash r' = icfSlash r /\
    communityPool r' = communityPool r /\ reservedAddr r' = reservedAddr r /\
    forall k, is_Some (addresses r' !! k) <-> is_Some (addresses r !! k).
Proof.
  intros HP Hr.
  destruct (distribution_Done_inv _ _ _ _ Hr)
    as (m & a & Hm & Ha & Hk & _ & Hnv & Hat & _).
  assert (exists r', distribution accounts' p prefix = Done r') as [r' Hr'].
  { assert (solveNonVotersMultiplier (atomDistrib accounts') p = Some m) as Hm'
      by (rewrite (solve_Permutation accounts accounts' p HP); exact Hm).
    rewrite (distribution_solved _ _ _ _ Hm').
    destruct (pass2_Done p prefix accounts'
                (solvedAirdrop p (atomDistrib accounts') m)) as [a2 ->].
    - intros b Hb Hsl Hnz.
      apply (pass2_Done_converted p prefix accounts _ a Ha b);
        [exact (elem_of_Permutation_acc _ _ b HP Hb) | exact Hsl | exact Hnz].
    - destruct (mint_Done p a2) as [cp ->]. by eexists. }
  exists r'. split; [exact Hr' |].
  destruct (distribution_Done_inv _ _ _ _ Hr')
    as (m' & a2 & Hm' & Ha2 & Hk' & _ & Hnv' & Hat' & _).
  assert (m' = m) as ->.
  { rewrite (solve_Permutation accounts accounts' p HP) in Hm'. congruence. }
  assert (nonVotersMultiplier r' = nonVotersMultiplier r) as Env by congruence.
  split; [exact Env |].
  destruct (atomDistrib_sums accounts) as (Hs & Hu & Hv).
  destruct (atomDistrib_sums accounts') as (Hs' & Hu' & Hv').
  split.
  { rewrite Hat, Hat', Hs, Hs', Hu, Hu'.
    rewrite (sumOf_Permutation _ _ _ HP), (sumOf_Permutation LiquidAmount _ _ HP).
    split; [reflexivity |]. split; [reflexivity |].
    intros o. rewrite Hv, Hv'. apply eq_sym, sumOf_Permutation, HP. }
  destruct (distribution_Done_sums _ _ _ _ Hr) as (Ts & Tu & Tv & Ti).
  destruct (distribution_Done_sums _ _ _ _ Hr') as (Ts' & Tu' & Tv' & Ti').
  rewrite Env in Ts', Tu', Tv'.
  assert (supply (atone r') = supply (atone r)) as Esup.
  { rewrite Ts, Ts', !sumOf_nonSlashed. apply eq_sym, sumOf_Permutation, HP. }
  split.
  { split; [exact Esup |]. split.
    - rewrite Tu, Tu', !sumOf_nonSlashed. apply eq_sym, sumOf_Permutation, HP.
    - intros o. rewrite Tv, Tv', !sumOf_nonSlashed.
      apply eq_sym, sumOf_Permutation, HP. }
  split.
  { rewrite Ti, Ti', !sumOf_onlySlashed. apply eq_sym, sumOf_Permutation, HP. }
  destruct (distribution_Done_minted _ _ _ _ Hr) as (-> & ->).
  destruct (distribution_Done_minted _ _ _ _ Hr') as (-> & ->).
  rewrite Esup.
  split; [reflexivity |]. split; [reflexivity |].
  assert (forall l1 l2 x1 x2, Permutation l1 l2 ->
            forAccounts (allocate p prefix) l1 (solvedAirdrop p (atomDistrib l1) m) = Done x1 ->
            forAccounts (allocate p prefix) l2 (solvedAirdrop p (atomDistrib l2) m) = Done x2 ->
            forall k, is_Some (addresses x1 !! k) -> is_Some (addresses x2 !! k))
    as Hsub.
  { intros l1 l2 x1 x2 HP12 H1 H2 k [v Hv1].
    destruct (pass2_entries p prefix l1 _ x1 ltac:(by rewrite H1)) as (He & _).
    destruct (He k v Hv1) as [He0 | (b & Hb & Hrec & _)].
    - cbn [addresses solvedAirdrop] in He0. rewrite lookup_empty in He0.
      discriminate He0.
    - apply (pass2_keys_present p prefix l2 _ x2 H2 k). right. exists b.
      split; [| exact Hrec].
      exact (elem_of_Permutation_acc _ _ b (Permutation_sym HP12) Hb). }
  intros k. rewrite Hk, Hk'. split.
  - apply (Hsub accounts' accounts a2 a (Permutation_sym HP) Ha2 Ha).
  - apply (Hsub accounts accounts' a a2 HP Ha Ha2).
Qed.

(** *** Signs *)

Lemma Mul_nonneg (d d2 : Dec) : 0 <= d -> 0 <= d2 -> 0 <= Mul d d2.
Proof.
  intros H1 H2. apply chopPrecisionAndRound_nonneg. by apply Z.mul_nonneg_nonneg.
Qed.

Lemma Quo_nonneg (d d2 q : Dec) :
  0 <= d -> 0 <= d2 -> Quo d d2 = Some q -> 0 <= q.
Proof.
  unfold Quo. intros H1 H2. destruct (Z.eqb_spec d2 0); [intros H; discriminate H |].
  intros [= <-]. apply chopPrecisionAndRound_nonneg.
  apply Z.quot_pos; [| lia].
  rewrite precisionReuse_val. lia.
Qed.

Lemma sumOf_nonneg {A : Type} (f : A -> Z) (l : list A) :
  (forall a, a ∈ l -> 0 <= f a) -> 0 <= sumOf f l.
Proof.
  induction l as [| a l IH]; intros H; [reflexivity |].
  assert (0 <= f a) by (apply H; by left).
  assert (0 <= sumOf f l) by (apply IH; intros; apply H; by right).
  rewrite sumOf_cons. lia.
Qed.

(** X7. With parameters, stakes, liquid amounts and weights that are not
    negative, every airdrop the call hands back has a multiplier that is not
    negative, $ATONE aggregates that are not negative, and strictly positive
    amounts in the address mapping. *)
Theorem awards_positive accounts p prefix r :
  0 <= yesVotesMultiplier p -> 0 <= noVotesMultiplier p -> 0 <= bonus p ->
  0 <= malus p -> 0 <= supplyFactor p ->
  (forall b, b ∈ accounts ->
     0 <= StakedAmount b /\ 0 <= LiquidAmount b /\ forall o, 0 <= voteWeights b o) ->
  airdropOf (distribution accounts p prefix) = Some r ->
  0 <= nonVotersMultiplier r /\
  (forall k v, addresses r !! k = Some v -> 0 < v) /\
  0 <= supply (atone r) /\ 0 <= unstaked (atone r) /\
  forall o, 0 <= votes (atone r) o.
Proof.
  intros Hy Hn Hb Hmal Hsf Hacc Hr.
  destruct (distribution_inv _ _ _ _ Hr)
    as (m & a & Hm & Ha & Hk & _ & Hnv & _ & Hat & _).
  assert (forall b o, b ∈ accounts -> 0 <= atomAmtOf b o) as Hsrc.
  { intros b o Hin. destruct (Hacc b Hin) as (? & ? & Hw).
    apply Mul_nonneg; [apply Hw | assumption]. }
  assert (0 <= m) as Hm0.
  { destruct (atomDistrib_sums accounts) as (_ & Hu & Hv).
    unfold solveNonVotersMultiplier in Hm.
    apply (Quo_nonneg _ _ _) in Hm; [exact Hm | |].
    - apply Mul_nonneg; [by vm_compute |].
      unfold yesAtoneTotalAmt, noAtoneTotalAmt, Add. rewrite !Hv.
      apply Z.add_nonneg_nonneg; apply Mul_nonneg; try assumption.
      + apply sumOf_nonneg. intros b Hin. by apply Hsrc.
      + apply Z.add_nonneg_nonneg; apply sumOf_nonneg; intros b Hin; by apply Hsrc.
    - apply Mul_nonneg; [by vm_compute |].
      unfold noVotersAtomTotalAmt, Add. rewrite Hu, !Hv.
      repeat apply Z.add_nonneg_nonneg; apply sumOf_nonneg; intros b Hin;
        [by apply Hsrc | by apply Hsrc | by destruct (Hacc b Hin) as (? & ? & _)]. }
  assert (forall b o, b ∈ accounts -> 0 <= awardOf p m b o) as Haw.
  { intros b o Hin. destruct (Hacc b Hin) as (? & ? & Hw).
    destruct o; unfold_amounts; repeat apply Mul_nonneg;
      try assumption; apply Hw. }
  assert (forall b, b ∈ accounts -> 0 <= liquidAirdropAmt p m b) as Hliq.
  { intros b Hin. destruct (Hacc b Hin) as (? & ? & _).
    unfold_amounts. repeat apply Mul_nonneg; assumption. }
  assert (forall b, b ∈ accounts -> 0 <= airdropAmt p m b) as Htot.
  { intros b Hin. pose proof (Hliq b Hin).
    pose proof (Haw b OptionYes Hin). pose proof (Haw b OptionNo Hin).
    pose proof (Haw b OptionNoWithVeto Hin). pose proof (Haw b OptionAbstain Hin).
    pose proof (Haw b OptionEmpty Hin).
    unfold awardOf in *. unfold airdropAmt, stakedAirdropAmt, Add. lia. }
  rewrite Hnv. split; [exact Hm0 |]. split.
  - intros k v Hv. rewrite Hk in Hv.
    destruct (pass2_entries _ _ _ _ _ Ha) as (Hent & _).
    destruct (Hent k v Hv) as [He | (b & Hin & (_ & Hnz & _) & ->)].
    + cbn [addresses solvedAirdrop] in He. rewrite lookup_empty in He.
      discriminate He.
    + cbn [nonVotersMultiplier solvedAirdrop] in *.
      assert (0 <= RoundInt (airdropAmt p m b))
        by (apply chopPrecisionAndRound_nonneg, Htot, Hin).
      lia.
  - rewrite Hat. revert Ha.
    apply (forAccounts_inv (fun x =>
      nonVotersMultiplier x = m /\
      0 <= supply (atone x) /\ 0 <= unstaked (atone x) /\
      forall o, 0 <= votes (atone x) o)).
    + intros a0 acc a1 (Hm1 & Hs0 & Hu0 & Hv0) Hin Hstep.
      destruct (allocate_fixed _ _ _ _ _ Hstep) as (Hm2 & _).
      split; [congruence |].
      rewrite allocate_cases, Hm1 in Hstep.
      assert (0 <= supply (addAtone p m (atone a0) acc) /\
              0 <= unstaked (addAtone p m (atone a0) acc) /\
              forall o, 0 <= votes (addAtone p m (atone a0) acc) o) as Hadd.
      { pose proof (Htot acc Hin). pose proof (Hliq acc Hin).
        unfold addAtone at 1 2. cbn [supply unstaked]. unfold Add.
        split; [lia |]. split; [lia |].
        intros o. rewrite addAtone_votes. specialize (Hv0 o).
        pose proof (Haw acc o Hin). lia. }
      destruct (slashed acc).
      { injection Hstep as <-. cbn [atone set_icfSlash].
        split; [exact Hs0 | split; [exact Hu0 | exact Hv0]]. }
      cbn zeta in Hstep.
      assert (atone a1 = addAtone p m (atone a0) acc) as ->; [| exact Hadd].
      destruct (_ =? 0); [injection Hstep as <-; reflexivity |].
      destruct (outputAddr prefix acc); injection Hstep as <-; reflexivity.
    + cbn [nonVotersMultiplier atone solvedAirdrop zeroDistrib supply unstaked votes].
      split; [reflexivity |]. split; [reflexivity |]. split; [reflexivity |].
      intros o. rewrite newVoteMap_zero. reflexivity.
Qed.

(** *** Percentages *)

(** A quotient of a non-negative decimal by a positive one is within
    half a unit of the last place (and a little) of the exact quotient. *)
Lemma Quo_near (d d2 : Dec) :
  0 <= d -> 0 < d2 ->
  exists q, Quo d d2 = Some q /\ 0 <= q /\
    2 * Z.abs (d * precisionReuse * precisionReuse - precisionReuse * (q * d2))
      < (precisionReuse + 2) * d2.
Proof.
  intros Hd Hd2. unfold Quo. destruct (Z.eqb_spec d2 0); [lia |].
  eexists. split; [reflexivity |].
  assert (0 <= d * precisionReuse * precisionReuse) as Hx
    by (rewrite precisionReuse_val; lia).
  set (x := d * precisionReuse * precisionReuse) in *.
  pose proof (Z.quot_rem' x d2) as Hqr.
  assert (0 <= Z.rem x d2 < d2) as Hrem by (apply Z.rem_bound_pos; lia).
  assert (0 <= Z.quot x d2) as Hq by (apply Z.quot_pos; lia).
  pose proof (chopPrecisionAndRound_near (Z.quot x d2)) as Hc.
  pose proof (chopPrecisionAndRound_nonneg _ Hq) as Hc0.
  split; [exact Hc0 |].
  set (q := Z.quot x d2) in *. set (c := chopPrecisionAndRound q) in *.
  set (r := Z.rem x d2) in *. rewrite precisionReuse_val in *.
  assert (x - 1000000000000000000 * (c * d2)
          = d2 * (q - 1000000000000000000 * c) + r) as E by lia.
  rewrite E. clearbody q c r x. nia.
Qed.

(** X8. [votePercentages] panics exactly when the supply is zero. *)
Theorem votePercentages_panics (d : distrib) :
  votePercentages d = None <-> supply d = 0.
Proof.
  unfold votePercentages, Quo. destruct (Z.eqb_spec (supply d) 0) as [Hz | Hnz].
  - split; [intros _; exact Hz | reflexivity].
  - split; [intros H; discriminate H | contradiction].
Qed.

(** X9. For a conserved distribution with a positive supply and amounts
    that are not negative, the five vote percentages and the unstaked
    percentage are defined, are not negative, and add up to one within
    three units of the last decimal place. *)
Theorem percentages_add_up (d : distrib) :
  0 < supply d -> (forall o, 0 <= votes d o) -> 0 <= unstaked d ->
  Add (sumVotes (votes d)) (unstaked d) = supply d ->
  exists percs u,
    votePercentages d = Some percs /\
    Quo (unstaked d) (supply d) = Some u /\
    (forall o, percs o = default 0 (Quo (votes d o) (supply d))) /\
    (forall o, 0 <= percs o) /\ 0 <= u /\
    Z.abs (Add (sumVotes percs) u - OneDec) <= 3.
Proof.
  intros Hs Hv Hu Hcons.
  destruct (Quo_near (votes d OptionEmpty) (supply d) (Hv _) Hs) as (e & He & He0 & Hen).
  destruct (Quo_near (votes d OptionYes) (supply d) (Hv _) Hs) as (y & Hy & Hy0 & Hyn).
  destruct (Quo_near (votes d OptionAbstain) (supply d) (Hv _) Hs) as (ab & Hab & Hab0 & Habn).
  destruct (Quo_near (votes d OptionNo) (supply d) (Hv _) Hs) as (n & Hn & Hn0 & Hnn).
  destruct (Quo_near (votes d OptionNoWithVeto) (supply d) (Hv _) Hs) as (w & Hw & Hw0 & Hwn).
  destruct (Quo_near (unstaked d) (supply d) Hu Hs) as (u & Hq & Hu0 & Hun).
  unfold votePercentages. rewrite He, Hy, Hab, Hn, Hw.
  eexists _, u. split; [reflexivity |]. split; [exact Hq |].
  split.
  { intros o.
    destruct o; [rewrite He | rewrite Hy | rewrite Hab | rewrite Hn | rewrite Hw];
      reflexivity. }
  split; [intros o; destruct o; assumption |]. split; [exact Hu0 |].
  unfold sumVotes, Add, OneDec in *. rewrite precisionReuse_val in *.
  set (b := supply d) in *.
  set (S := y + n + w + ab + e + u).
  assert (y * b + n * b + w * b + ab * b + e * b + u * b = S * b) as ES
    by (unfold S; ring).
  assert (S <= 1000000000000000003 /\ 999999999999999997 <= S) as [Hle Hge].
  { split.
    - destruct (Z_le_gt_dec S 1000000000000000003) as [? | Hgt]; [assumption |].
      exfalso. assert ((1000000000000000004) * b <= S * b)
        by (apply Z.mul_le_mono_nonneg_r; lia).
      lia.
    - destruct (Z_le_gt_dec 999999999999999997 S) as [? | Hgt]; [assumption |].
      exfalso. assert (S * b <= 999999999999999996 * b)
        by (apply Z.mul_le_mono_nonneg_r; lia).
      lia. }
  unfold S in *. lia.
Qed.

Transparent icfWallets.

End EngineFacts.

(** ** The multiplier in exact arithmetic *)




(** ** The claims on sample inputs *)



(** C2 as stated fails: with one account that staked 100 and voted Yes the
    pool is zero, and the call neither returns an error nor an airdrop: it
    panics in the division. *)
Lemma zero_pool_not_reported :
  noVotersAtomTotalAmt (atomDistrib ownVoteWeights [yesVoter]) = 0 /\
  run [yesVoter] sampleParams "" = Crash DivisionByZero /\
  ~ exists a e, run [yesVoter] sampleParams "" = Fail a e.
Proof.
  split; [reflexivity |]. split; [reflexivity |].
  intros (a & e & H). vm_compute in H. discriminate.
Qed.

Lemma zero_pool_panics_witness :
  run [yesVoter] sampleParams "" = Crash DivisionByZero.
Proof.
  destruct (zero_pool_panics ownVoteWeights plainGetFromBech32
              plainBech32ifyAddressBytes [yesVoter] sampleParams "") as [H _].
  - vm_compute. reflexivity.
  - exact H.
Defined.




Lemma slashed_accounts_get_nothing_witness :
  let r := resultOf (run [yesVoter; icfAccount; nonVoter] sampleParams "") in
  icfSlash r = NewDec 100 /\
  addresses r !! Address icfAccount = None /\
  addressesDetail r !! Address icfAccount = None.
Proof.
  cbv zeta.
  destruct (slashed_accounts_get_nothing ownVoteWeights plainGetFromBech32
              plainBech32ifyAddressBytes [yesVoter; icfAccount; nonVoter]
              sampleParams ""
              (resultOf (run [yesVoter; icfAccount; nonVoter] sampleParams "")))
    as (_ & Hnone & Hicf & _).
  - vm_compute. reflexivity.
  - split.
    + rewrite Hicf. vm_compute. reflexivity.
    + apply Hnone; [reflexivity | | vm_compute; reflexivity].
      apply elem_of_cons. right. apply elem_of_cons. by left.
Defined.

Lemma zero_awards_left_out_witness :
  let r := resultOf (run [yesVoter; dustVoter; nonVoter] sampleParams "") in
  (forall k v, addresses r !! k = Some v -> v <> 0) /\
  supply (atone r)
    = sumOf (airdropAmt ownVoteWeights sampleParams (nonVotersMultiplier r))
        [yesVoter; nonVoter]
      + NewDecWithPrec 1 1.
Proof.
  cbv zeta.
  destruct (zero_awards_left_out ownVoteWeights plainGetFromBech32
              plainBech32ifyAddressBytes [yesVoter] dustVoter [nonVoter]
              sampleParams ""
              (resultOf (run [yesVoter; dustVoter; nonVoter] sampleParams "")))
    as (_ & Hnz & Hs & _).
  - vm_compute. reflexivity.
  - vm_compute. reflexivity.
  - vm_compute. reflexivity.
  - split; [exact Hnz |]. cbn [app] in Hs. rewrite Hs. vm_compute. reflexivity.
Defined.

(** C8 as stated fails for the $ATOM distribution: the weights of the
    account add up to one, and the votes and the unstaked amount add up to
    1.499999999999999999 against a supply of 1.5. *)
Lemma atom_not_conserved :
  let r := resultOf (run [thirdsVoter] sampleParams "") in
  sumVotes (ownVoteWeights thirdsVoter) = OneDec /\
  run [thirdsVoter] sampleParams "" = Done r /\
  Add (sumVotes (votes (atom r))) (unstaked (atom r)) = 1499999999999999999 /\
  supply (atom r) = 1500000000000000000.
Proof.
  cbv zeta. repeat split; vm_compute; reflexivity.
Qed.

Lemma distribs_conserved_witness :
  let r := resultOf (run [thirdsVoter] sampleParams "") in
  Add (sumVotes (votes (atone r))) (unstaked (atone r)) = supply (atone r) /\
  Z.abs (Add (sumVotes (votes (atom r))) (unstaked (atom r)) - supply (atom r)) <= 2.
Proof.
  cbv zeta.
  destruct (distribs_conserved ownVoteWeights plainGetFromBech32
              plainBech32ifyAddressBytes [thirdsVoter] sampleParams ""
              (resultOf (run [thirdsVoter] sampleParams "")))
    as (Hatone & Hatom & _).
  - vm_compute. reflexivity.
  - split; [exact Hatone |].
    apply Hatom. intros a Ha. apply list_elem_of_singleton in Ha as ->.
    vm_compute. reflexivity.
Defined.




(** ** The bank genesis *)

Lemma sumOf_map {A B : Type} (g : A -> B) (f : B -> Z) (l : list A) :
  sumOf f (map g l) = sumOf (fun a => f (g a)) l.
Proof.
  induction l as [| a l IH]; [reflexivity |].
  cbn [map]. rewrite !sumOf_cons, IH. reflexivity.
Qed.

Lemma fold_left_Add {A : Type} (f : A -> Dec) (l : list A) (d : Dec) :
  fold_left (fun balance a => Add balance (f a)) l d = d + sumOf f l.
Proof.
  revert d. induction l as [| a l IH]; intros d; cbn [fold_left].
  - cbn. lia.
  - rewrite IH, sumOf_cons. unfold Add. lia.
Qed.

Lemma applyVoteOptions_sum vote amount :
  applyVoteOptions vote amount = sumOf (fun o => Mul amount (Weight o)) vote.
Proof.
  unfold applyVoteOptions. rewrite fold_left_Add. reflexivity.
Qed.

(** X10. [applyVoteOptions] looks at the weights only: two votes with the
    same weights, in any order and on whatever options, give the same
    balance; an empty vote gives zero. *)
Theorem applyVoteOptions_weights_only vote vote' amount :
  Permutation (map Weight vote) (map Weight vote') ->
  applyVoteOptions vote amount = applyVoteOptions vote' amount /\
  applyVoteOptions [] amount = ZeroDec.
Proof.
  intros HP. split; [| reflexivity].
  rewrite !applyVoteOptions_sum.
  rewrite <- (sumOf_map Weight (fun w => Mul amount w) vote).
  rewrite <- (sumOf_map Weight (fun w => Mul amount w) vote').
  apply sumOf_Permutation, HP.
Qed.

Lemma applyVoteOptions_error vote amount :
  2 * Z.abs (precisionReuse * applyVoteOptions vote amount
             - amount * sumOf Weight vote)
    <= precisionReuse * Z.of_nat (length vote).
Proof.
  rewrite applyVoteOptions_sum.
  induction vote as [| o vote IH]; [cbn; lia |].
  rewrite !sumOf_cons. cbn [length].
  pose proof (Mul_near amount (Weight o)) as Hn.
  rewrite precisionReuse_val in *. lia.
Qed.

(** X11. When the weights of a vote add up to one, [applyVoteOptions]
    returns the amount up to the rounding of one product per option: the
    difference is at most half a unit of the last decimal place per option,
    and zero when the amount is a whole number. *)
Theorem applyVoteOptions_near vote amount :
  sumOf Weight vote = OneDec ->
  2 * Z.abs (applyVoteOptions vote amount - amount) <= Z.of_nat (length vote) /\
  ((exists k, amount = NewDec k) -> applyVoteOptions vote amount = amount).
Proof.
  intros Hw. split.
  - pose proof (applyVoteOptions_error vote amount) as H.
    rewrite Hw in H. unfold OneDec in H. rewrite precisionReuse_val in H. lia.
  - intros [k ->]. rewrite applyVoteOptions_sum.
    rewrite (sumOf_ext _ (fun o => k * Weight o)).
    + assert (forall l, sumOf (fun o => k * Weight o) l = k * sumOf Weight l) as E.
      { induction l as [| o l IH]; [cbn; lia |]. rewrite !sumOf_cons, IH. lia. }
      rewrite E, Hw. unfold NewDec, OneDec. reflexivity.
    + intros o. unfold Mul. rewrite Z.mul_comm.
      change (chopPrecisionAndRound (Weight o * NewDec k)) with (Mul (Weight o) (NewDec k)).
      rewrite Mul_whole. lia.
Qed.

Section GenesisFacts.

Variable GetFromBech32 : string -> string -> list Byte.byte + error.
Variable Bech32ifyAddressBytes : string -> list Byte.byte -> string + error.

Local Abbreviation convertBech32 :=
  (convertBech32 GetFromBech32 Bech32ifyAddressBytes).
Local Abbreviation bankBalances :=
  (bankBalances GetFromBech32 Bech32ifyAddressBytes).

Local Abbreviation writtenFor :=
  (writtenFor GetFromBech32 Bech32ifyAddressBytes).

Lemma bankBalances_cons a rest balances :
  bankBalances (a :: rest) balances =
    match convertBech32 (Address a) "cosmos" "govgen" with
    | inr err => GenesisError err
    | inl govgenAddr =>
        match TruncateInt64 (accountBalance a) with
        | None => GenesisPanic
        | Some amount =>
            match NewInt64Coin "ugovgen" amount with
            | None => GenesisPanic
            | Some coin =>
                bankBalances rest (balances ++ [mkBalance govgenAddr (NewCoins1 coin)])
            end
        end
    end.
Proof. reflexivity. Qed.

Lemma bankBalances_app l1 l2 balances :
  bankBalances (l1 ++ l2) balances =
    match bankBalances l1 balances with
    | Balances bs => bankBalances l2 bs
    | o => o
    end.
Proof.
  revert balances. induction l1 as [| a l1 IH]; intros balances; [reflexivity |].
  rewrite <- app_comm_cons, !bankBalances_cons.
  destruct (convertBech32 (Address a) "cosmos" "govgen"); [| reflexivity].
  destruct (TruncateInt64 (accountBalance a)); [| reflexivity].
  destruct (NewInt64Coin "ugovgen" z); [| reflexivity].
  apply IH.
Qed.

Lemma TruncateInt64_Some d amount :
  TruncateInt64 d = Some amount ->
  amount = Z.quot d precisionReuse /\ - 2 ^ 63 <= amount < 2 ^ 63.
Proof.
  unfold TruncateInt64.
  destruct (Z.leb_spec (- 2 ^ 63) (Z.quot d precisionReuse)) as [Hlo | Hlo];
    destruct (Z.ltb_spec (Z.quot d precisionReuse) (2 ^ 63)) as [Hhi | Hhi];
    cbn [andb]; intros E; try discriminate E.
  injection E as <-. split; [reflexivity | split; assumption].
Qed.

Lemma bankBalances_written accounts balances bs :
  bankBalances accounts balances = Balances bs ->
  exists new, bs = balances ++ new /\ Forall2 writtenFor accounts new.
Proof.
  revert balances. induction accounts as [| a accounts IH]; intros balances.
  - cbn. intros [= <-]. exists []. split; [by rewrite app_nil_r | constructor].
  - rewrite bankBalances_cons.
    destruct (convertBech32 (Address a) "cosmos" "govgen") as [addr |] eqn:Hc;
      [| intros H; discriminate H].
    destruct (TruncateInt64 (accountBalance a)) as [amount |] eqn:Ht;
      [| intros H; discriminate H].
    unfold NewInt64Coin. destruct (Z.ltb_spec amount 0) as [Hneg | Hpos];
      [intros H; discriminate H |].
    intros H. destruct (IH _ H) as (new & -> & Hnew).
    exists (mkBalance addr (NewCoins1 (mkCoin "ugovgen" amount)) :: new).
    split; [by rewrite <- app_assoc |].
    constructor; [| exact Hnew].
    split; [exact Hc |]. exists amount.
    destruct (TruncateInt64_Some _ _ Ht) as (Hq & _ & Hhi).
    split; [exact Ht |]. split; [exact Hq |]. split; [lia |].
    reflexivity.
Qed.

(** X12. When the loop of [writeBankGenesis] completes, there is one balance
    per account, in the order of the accounts; its address is the address of
    the account moved to the prefix [govgen]; its amount is the integer part
    of the account's balance, between 0 and 2^63, carried by one coin of
    denom [ugovgen], or by no coin at all when it is zero. *)
Theorem bankBalances_shape accounts bs :
  bankBalances accounts [] = Balances bs ->
  length bs = length accounts /\
  Forall2 writtenFor accounts bs /\
  Forall (fun b => Forall (fun c => Denom c = "ugovgen"%string /\ 0 < CoinAmount c)
                     (Coins b)) bs.
Proof.
  intros H. destruct (bankBalances_written _ _ _ H) as (new & -> & Hnew).
  cbn [app]. split; [symmetry; exact (Forall2_length _ _ _ Hnew) |].
  split; [exact Hnew |].
  clear H. induction Hnew as [| a b accounts new Hab _ IH]; constructor; [| exact IH].
  destruct Hab as (_ & amount & _ & _ & Hr & ->).
  destruct (Z.eqb_spec amount 0); [constructor |].
  constructor; [| constructor]. cbn. split; [reflexivity | lia].
Qed.

(** X13. The loop of [writeBankGenesis] returns the error of the first
    address that does not convert, whatever the accounts after it; nothing
    is written then. *)
Theorem bankBalances_first_error l1 a l2 bs err :
  bankBalances l1 [] = Balances bs ->
  convertBech32 (Address a) "cosmos" "govgen" = inr err ->
  bankBalances (l1 ++ a :: l2) [] = GenesisError err.
Proof.
  intros H1 Hc. rewrite bankBalances_app, H1, bankBalances_cons, Hc.
  reflexivity.
Qed.

Lemma accountBalance_no_vote a :
  Vote a = [] -> Forall (fun d => DelegationVote d = []) (Delegations a) ->
  accountBalance a = 0.
Proof.
  intros Hv Hd. unfold accountBalance. rewrite Hv, fold_left_Add.
  rewrite (sumOf_zero _ (Delegations a)); [reflexivity |].
  intros d Hin. rewrite Forall_forall in Hd. rewrite (Hd d Hin). reflexivity.
Qed.

(** X14. An account that did not vote and whose delegations inherit no vote
    has a balance of zero, and the loop of [writeBankGenesis], when it
    completes, writes a balance without coins for it. *)
Theorem bankBalances_no_vote l1 a l2 bs :
  Vote a = [] -> Forall (fun d => DelegationVote d = []) (Delegations a) ->
  bankBalances (l1 ++ a :: l2) [] = Balances bs ->
  accountBalance a = 0 /\
  exists b, bs !! length l1 = Some b /\ Coins b = [].
Proof.
  intros Hv Hd H. pose proof (accountBalance_no_vote a Hv Hd) as H0.
  split; [exact H0 |].
  destruct (bankBalances_shape _ _ H) as (_ & HF & _).
  destruct (Forall2_lookup_l _ _ _ (length l1) a HF) as (b & Hb & Hab).
  { rewrite lookup_app_r by lia. by rewrite Nat.sub_diag. }
  exists b. split; [exact Hb |].
  destruct Hab as (_ & amount & _ & -> & _ & ->).
  rewrite H0. reflexivity.
Qed.

End GenesisFacts.

(** ** The maps built while parsing *)

Lemma fold_left_snoc {A B : Type} (f : A -> B -> A) (l : list B) (b : B) (a : A) :
  fold_left f (l ++ [b]) a = f (fold_left f l a) b.
Proof. by rewrite fold_left_app. Qed.

(** X15. [parseDelegationsByAddr] files every delegation under its
    delegator, in the order read: the list found for an address is the
    sub-list of the delegations of that delegator, and an address is absent
    exactly when no delegation has it as delegator. *)
Theorem delegsByAddr_lookup (delegs : list StakingDelegation) (addr : string) :
  default [] (delegsByAddr delegs !! addr)
    = filter (fun d => DelegatorAddress d = addr) delegs /\
  (delegsByAddr delegs !! addr = None <->
   filter (fun d => DelegatorAddress d = addr) delegs = []).
Proof.
  unfold delegsByAddr.
  induction delegs as [| d delegs IH] using rev_ind.
  - cbn. rewrite lookup_empty. split; [reflexivity | split; reflexivity].
  - destruct IH as (IH1 & IH2). rewrite fold_left_snoc, filter_app.
    set (m := fold_left _ delegs ∅) in *.
    rewrite lookup_insert. case_decide as Hd.
    + rewrite Hd in *. rewrite filter_cons_True by exact Hd.
      rewrite filter_nil. cbn [default]. rewrite IH1. split; [reflexivity |].
      split; [intros H; discriminate H |].
      intros H. apply app_eq_nil in H as [_ H]. discriminate H.
    + rewrite filter_cons_False by exact Hd.
      rewrite filter_nil, app_nil_r. split; [exact IH1 | exact IH2].
Qed.

(** X16. [parseVotesByAddr] keeps, for each voter, the options of the last
    vote read for that voter. *)
Theorem votesByAddr_lookup (votes : list GovVote) (addr : string) :
  votesByAddr votes !! addr
    = Options <$> last (filter (fun v => Voter v = addr) votes).
Proof.
  unfold votesByAddr.
  induction votes as [| v votes IH] using rev_ind.
  - cbn. by rewrite lookup_empty.
  - rewrite fold_left_snoc, filter_app, lookup_insert. case_decide as Hv.
    + rewrite filter_cons_True by exact Hv. rewrite filter_nil, last_snoc.
      reflexivity.
    + rewrite filter_cons_False by exact Hv. rewrite filter_nil, app_nil_r.
      exact IH.
Qed.

(** X17. [parseBalancesByAddr] keeps, for each address, the first coin of
    the requested denom of the last balance of that address that has such a
    coin; every coin it keeps has the requested denom. *)
Theorem balancesByAddr_lookup (balances : list Balance) (denom addr : string) :
  let coinOf b := List.find (fun c => String.eqb (Denom c) denom) (Coins b) in
  balancesByAddr balances denom !! addr
    = last (omap coinOf (filter (fun b => BalanceAddress b = addr) balances)) /\
  forall c, balancesByAddr balances denom !! addr = Some c ->
    Denom c = denom /\
    exists b, b ∈ balances /\ BalanceAddress b = addr /\ c ∈ Coins b.
Proof.
  intros coinOf.
  assert (balancesByAddr balances denom !! addr
    = last (omap coinOf (filter (fun b => BalanceAddress b = addr) balances))) as E.
  { unfold balancesByAddr.
    induction balances as [| b balances IH] using rev_ind.
    - cbn. by rewrite lookup_empty.
    - rewrite fold_left_snoc, filter_app, omap_app. fold (coinOf b).
      destruct (decide (BalanceAddress b = addr)) as [Hb | Hb].
      + rewrite filter_cons_True by exact Hb. rewrite filter_nil.
        cbn [omap list_omap]. destruct (coinOf b) as [c |].
        * rewrite Hb, lookup_insert_eq, last_snoc. reflexivity.
        * rewrite app_nil_r. exact IH.
      + rewrite filter_cons_False by exact Hb. rewrite filter_nil.
        cbn [omap list_omap]. rewrite app_nil_r.
        destruct (coinOf b) as [c |]; [| exact IH].
        rewrite lookup_insert_ne by exact Hb. exact IH. }
  split; [exact E |].
  intros c Hc. rewrite E in Hc. apply last_Some_elem_of in Hc.
  apply list_elem_of_omap in Hc as (b & Hb & Hfind).
  apply list_elem_of_filter in Hb as (Haddr & Hin).
  apply find_some in Hfind as (HcIn & Hden).
  split; [by apply String.eqb_eq |].
  exists b. split; [exact Hin |]. split; [exact Haddr |].
  by apply list_elem_of_In.
Qed.

(** ** The further properties on sample inputs *)

Lemma minted_halves_witness :
  let r := resultOf (run [yesVoter; nonVoter] sampleParams "") in
  communityPool r = reservedAddr r /\ communityPool r = Some 820978441127694858.
Proof.
  cbv zeta.
  destruct (minted_halves ownVoteWeights plainGetFromBech32
              plainBech32ifyAddressBytes [yesVoter; nonVoter] sampleParams ""
              (resultOf (run [yesVoter; nonVoter] sampleParams "")))
    as (half & Hcp & Hra & _).
  - vm_compute. reflexivity.
  - split; [congruence |]. vm_compute. reflexivity.
Defined.

Lemma addresses_follow_details_witness :
  let r := resultOf (run [yesVoter; nonVoter] sampleParams "") in
  addresses r !! "cosmos1bbb"%string
    = (fun d => RoundInt (Total d)) <$> addressesDetail r !! "cosmos1bbb"%string.
Proof.
  cbv zeta.
  destruct (addresses_follow_details ownVoteWeights plainGetFromBech32
              plainBech32ifyAddressBytes [yesVoter; nonVoter] sampleParams ""
              (resultOf (run [yesVoter; nonVoter] sampleParams "")))
    as (H & _).
  - vm_compute. reflexivity.
  - apply H.
Defined.

Lemma details_recompute_witness :
  let r := resultOf (run [yesVoter; nonVoter] sampleParams "") in
  let d := detailOf ownVoteWeights sampleParams (nonVotersMultiplier r) nonVoter in
  AtoneAmt (DnvDetail d)
    = Mul (Mul (Mul (AtomAmt (DnvDetail d)) (Multiplier (DnvDetail d)))
               (BonusMalus (DnvDetail d)))
          (Factor (DnvDetail d)).
Proof.
  cbv zeta.
  destruct (details_recompute ownVoteWeights plainGetFromBech32
              plainBech32ifyAddressBytes [yesVoter; nonVoter] sampleParams ""
              (resultOf (run [yesVoter; nonVoter] sampleParams ""))
              "cosmos1bbb"
              (detailOf ownVoteWeights sampleParams
                 (nonVotersMultiplier
                    (resultOf (run [yesVoter; nonVoter] sampleParams "")))
                 nonVoter)) as (_ & _ & _ & _ & H & _).
  - vm_compute. reflexivity.
  - vm_compute. reflexivity.
  - exact H.
Defined.

Lemma order_independent_witness :
  exists r',
    run [nonVoter; yesVoter] sampleParams "" = Done r' /\
    nonVotersMultiplier r'
      = nonVotersMultiplier (resultOf (run [yesVoter; nonVoter] sampleParams "")).
Proof.
  destruct (order_independent ownVoteWeights plainGetFromBech32
              plainBech32ifyAddressBytes [yesVoter; nonVoter] [nonVoter; yesVoter]
              sampleParams ""
              (resultOf (run [yesVoter; nonVoter] sampleParams "")))
    as (r' & Hr' & Hm & _).
  - apply perm_swap.
  - vm_compute. reflexivity.
  - exists r'. split; [exact Hr' | exact Hm].
Defined.

Lemma awards_positive_witness :
  let r := resultOf (run [yesVoter; nonVoter] sampleParams "") in
  0 <= nonVotersMultiplier r /\
  forall k v, addresses r !! k = Some v -> 0 < v.
Proof.
  cbv zeta.
  destruct (awards_positive ownVoteWeights plainGetFromBech32
              plainBech32ifyAddressBytes [yesVoter; nonVoter] sampleParams ""
              (resultOf (run [yesVoter; nonVoter] sampleParams "")))
    as (Hm & Hk & _).
  - vm_compute. discriminate.
  - vm_compute. discriminate.
  - vm_compute. discriminate.
  - vm_compute. discriminate.
  - vm_compute. discriminate.
  - intros b Hb.
    apply elem_of_cons in Hb as [-> | Hb];
      [| apply list_elem_of_singleton in Hb as ->];
      (split; [vm_compute; discriminate |]);
      (split; [vm_compute; discriminate |]);
      intros o; destruct o; vm_compute; discriminate.
  - vm_compute. reflexivity.
  - split; [exact Hm | exact Hk].
Defined.

Lemma percentages_add_up_witness :
  exists percs u,
    votePercentages thirdsDistrib = Some percs /\
    Quo (unstaked thirdsDistrib) (supply thirdsDistrib) = Some u /\
    Z.abs (Add (sumVotes percs) u - OneDec) <= 3.
Proof.
  destruct (percentages_add_up thirdsDistrib)
    as (percs & u & Hp & Hu & _ & _ & _ & Hsum).
  - vm_compute. reflexivity.
  - intros o. destruct o; vm_compute; discriminate.
  - vm_compute. discriminate.
  - vm_compute. reflexivity.
  - exists percs, u. split; [exact Hp |]. split; [exact Hu | exact Hsum].
Defined.

Lemma applyVoteOptions_weights_only_witness :
  applyVoteOptions [mkWeightedVoteOption OptionYes 300000000000000000;
                    mkWeightedVoteOption OptionNo 700000000000000000] (NewDec 7)
  = applyVoteOptions [mkWeightedVoteOption OptionAbstain 700000000000000000;
                      mkWeightedVoteOption OptionNoWithVeto 300000000000000000]
      (NewDec 7).
Proof.
  destruct (applyVoteOptions_weights_only
              [mkWeightedVoteOption OptionYes 300000000000000000;
               mkWeightedVoteOption OptionNo 700000000000000000]
              [mkWeightedVoteOption OptionAbstain 700000000000000000;
               mkWeightedVoteOption OptionNoWithVeto 300000000000000000]
              (NewDec 7)) as [H _].
  - apply perm_swap.
  - exact H.
Defined.

Lemma applyVoteOptions_near_witness :
  2 * Z.abs (applyVoteOptions (Vote splitVoter) (StakedAmount splitVoter)
             - StakedAmount splitVoter) <= 3.
Proof.
  destruct (applyVoteOptions_near (Vote splitVoter) (StakedAmount splitVoter))
    as [H _].
  - vm_compute. reflexivity.
  - exact H.
Defined.

Lemma bankBalances_shape_witness :
  exists bs,
    plainBankBalances [yesVoter; delegator; nonVoter] [] = Balances bs /\
    length bs = 3%nat.
Proof.
  destruct (bankBalances_shape plainGetFromBech32 plainBech32ifyAddressBytes
              [yesVoter; delegator; nonVoter]
              [mkBalance "govgen1aaa" [mkCoin "ugovgen" 100];
               mkBalance "govgen1fff" [mkCoin "ugovgen" 3];
               mkBalance "govgen1bbb" []]) as (Hlen & _).
  - vm_compute. reflexivity.
  - eexists. split; [vm_compute; reflexivity | exact Hlen].
Defined.

Lemma bankBalances_first_error_witness :
  plainBankBalances [yesVoter; badAddress; nonVoter] []
    = GenesisError "GetFromBech32 'foo': invalid Bech32 prefix".
Proof.
  apply (bankBalances_first_error plainGetFromBech32 plainBech32ifyAddressBytes
           [yesVoter] badAddress [nonVoter]
           [mkBalance "govgen1aaa" [mkCoin "ugovgen" 100]]).
  - vm_compute. reflexivity.
  - vm_compute. reflexivity.
Defined.

Lemma bankBalances_no_vote_witness :
  exists b,
    [mkBalance "govgen1aaa" [mkCoin "ugovgen" 100]; mkBalance "govgen1bbb" []]
      !! 1%nat = Some b /\ Coins b = [].
Proof.
  destruct (bankBalances_no_vote plainGetFromBech32 plainBech32ifyAddressBytes
              [yesVoter] nonVoter []
              [mkBalance "govgen1aaa" [mkCoin "ugovgen" 100];
               mkBalance "govgen1bbb" []]) as (_ & H).
  - reflexivity.
  - constructor.
  - vm_compute. reflexivity.
  - exact H.
Defined.
